(** * AVENIS / A1: the driver of the hybridized-DG diffusion solver

    A shallow embedding of [src/A1/main.cpp]: [Diffusion<dim>::OutLogger],
    [Diffusion<dim>::Solve_Linear_Systam], [Diffusion<dim>::Setup_System] and
    [main], followed by the properties of the orchestration contract; and of
    the two helpers of the file, [Tokenize] and [parse_my_options], with
    their properties.

    The program is a sequence of calls into PETSc and into the rest of the
    [Diffusion] class.  Every call is recorded, in program order, in a trace;
    the error code each PETSc call returns, the stopping reason of the Krylov
    solver, the wall clock and the run-time options are inputs (an oracle).
    What a PETSc call does to the objects it is given follows the PETSc
    manual pages and is written out next to each primitive. *)

From Stdlib Require Import ZArith List String Ascii QArith Lia.
From Stdlib Require Import DecimalString.
From stdpp Require Import base decidable countable list gmap strings.

Import ListNotations.
Local Open Scope string_scope.
Local Open Scope Z_scope.

(** ** PETSc vocabulary used by the driver *)

Definition PetscErrorCode := Z.
Definition PetscInt := Z.
(** A [PetscReal] written as a literal in the source ([1E-8], [-1],
    [PETSC_DEFAULT]) is kept as the rational it denotes. *)
Definition PetscReal := Q.

(** Type names are C strings in PETSc ([petscksp.h], [petscpc.h], [petscmat.h]). *)
Definition KSPCG := "cg".
Definition PCGAMG := "gamg".
Definition PCGAMGAGG := "agg".
Definition MATMPIAIJ := "mpiaij".
Definition PETSC_DEFAULT : Z := -2.
Definition PETSC_DEFAULT_REAL : PetscReal := (-2 # 1)%Q.
(** The literal [1E-8] of line 152. *)
Definition tol_1E_8 : PetscReal := (1 # 100000000)%Q.

Inductive MatOption := MAT_ROW_ORIENTED | MAT_SPD.
Inductive VecOption := VEC_IGNORE_NEGATIVE_INDICES.
Inductive MatAssemblyType := MAT_FINAL_ASSEMBLY.
Inductive NormType := NORM_2.
Inductive InsertMode := INSERT_VALUES.
Inductive ScatterMode := SCATTER_FORWARD.
Inductive PetscCopyMode := PETSC_COPY_VALUES.

(** The PETSc objects the function names: four members of [Diffusion]
    (the global system) and six locals. *)
Inductive Obj :=
| global_mat | RHS_vec | solution_vec | exact_solution
| TheSolver | ThePreCond | IS_from | IS_to | Vec_x | VecScatter_scatter.

#[global] Instance Obj_eq_dec : EqDecision Obj.
Proof. solve_decision. Defined.

Definition Obj_code (o : Obj) : positive :=
  match o with
  | global_mat => 1 | RHS_vec => 2 | solution_vec => 3 | exact_solution => 4
  | TheSolver => 5 | ThePreCond => 6 | IS_from => 7 | IS_to => 8
  | Vec_x => 9 | VecScatter_scatter => 10
  end%positive.

Definition Obj_decode (p : positive) : option Obj :=
  match p with
  | 1 => Some global_mat | 2 => Some RHS_vec | 3 => Some solution_vec
  | 4 => Some exact_solution | 5 => Some TheSolver | 6 => Some ThePreCond
  | 7 => Some IS_from | 8 => Some IS_to | 9 => Some Vec_x
  | 10 => Some VecScatter_scatter | _ => None
  end%positive.

#[global] Program Instance Obj_countable : Countable Obj :=
  {| encode := Obj_code; decode := Obj_decode |}.
Next Obligation. by intros []. Qed.

(** The global system objects of the data model: the matrix and its three
    vectors. *)
Definition global_system : list Obj :=
  [global_mat; RHS_vec; solution_vec; exact_solution].

(** A call into PETSc, with the arguments the source passes.  The
    constructors live in their own name space: the PETSc names themselves
    are the operations of the driver's monad, below. *)
Module Call.
Inductive PetscCall :=
| MatCreate (A : Obj)
| MatSetType (A : Obj) (ty : string)
| MatSetSizes (A : Obj) (m n M N : PetscInt)
| MatMPIAIJSetPreallocation (A : Obj) (d_nz : PetscInt) (d_nnz : list PetscInt)
                            (o_nz : PetscInt) (o_nnz : list PetscInt)
| MatGetOwnershipRange (A : Obj)
| MatSetOption (A : Obj) (op : MatOption) (flg : bool)
| VecCreateMPI (n N : PetscInt) (v : Obj)
| VecSetOption (v : Obj) (op : VecOption) (flg : bool)
| VecDuplicate (v newv : Obj)
| MatAssemblyBegin (A : Obj) (ty : MatAssemblyType)
| MatAssemblyEnd (A : Obj) (ty : MatAssemblyType)
| VecAssemblyBegin (v : Obj)
| VecAssemblyEnd (v : Obj)
| VecNorm (v : Obj) (ty : NormType)
| KSPCreate (ksp : Obj)
| KSPSetTolerances (ksp : Obj) (rtol abstol dtol : PetscReal) (maxits : PetscInt)
| KSPSetOperators (ksp A P : Obj)
| KSPSetType (ksp : Obj) (ty : string)
| KSPSetFromOptions (ksp : Obj)
| KSPGetPC (ksp pc : Obj)
| PCSetFromOptions (pc : Obj)
| PCSetType (pc : Obj) (ty : string)
| PCGAMGSetType (pc : Obj) (ty : string)
| PCGAMGSetNSmooths (pc : Obj) (n : PetscInt)
| KSPSolve (ksp b sol : Obj)
| KSPGetIterationNumber (ksp : Obj)
| KSPGetConvergedReason (ksp : Obj)
| VecAXPY (y : Obj) (alpha : PetscReal) (v : Obj)
| VecCreateSeq (n : PetscInt) (v : Obj)
| ISCreateGeneral (n : PetscInt) (idx : list PetscInt) (mode : PetscCopyMode) (iset : Obj)
| VecScatterCreate (xin ix yin iy newctx : Obj)
| VecScatterBegin (ctx xin yin : Obj) (addv : InsertMode) (mode : ScatterMode)
| VecScatterEnd (ctx xin yin : Obj) (addv : InsertMode) (mode : ScatterMode)
| VecGetArray (v : Obj)
| MatDestroy (A : Obj)
| VecDestroy (v : Obj).
End Call.
Abbreviation PetscCall := Call.PetscCall.

(** The output streams written by this file. *)
Inductive Stream := Execution_Time | cout.

#[global] Instance Stream_eq_dec : EqDecision Stream.
Proof. solve_decision. Defined.

(** The options database, as far as this file reads it: the five integer
    options and the face-basis name read by [main], and the solver options
    [KSPSetFromOptions] and [PCSetFromOptions] look up ([-ksp_type],
    [-ksp_rtol], [-pc_type]).  [None] is an option that was not supplied. *)
Record PetscOptions := {
  opt_p_0 : option Z;
  opt_p_n : option Z;
  opt_h_0 : option Z;
  opt_h_n : option Z;
  opt_amr : option Z;
  opt_face_basis : option string;
  opt_ksp_type : option string;
  opt_ksp_rtol : option PetscReal;
  opt_pc_type : option string
}.

Definition no_options : PetscOptions :=
  {| opt_p_0 := None; opt_p_n := None; opt_h_0 := None; opt_h_n := None;
     opt_amr := None; opt_face_basis := None;
     opt_ksp_type := None; opt_ksp_rtol := None; opt_pc_type := None |}.

(** ** Text formatting *)

Definition string_of_Z (z : Z) : string := NilZero.string_of_int (Z.to_int z).

Fixpoint spaces (n : nat) : string :=
  match n with
  | O => ""
  | S k => String " " (spaces k)
  end.

(** [%5d]: decimal, right-justified in a field of at least five columns. *)
Definition fmt_5d (z : Z) : string :=
  let s := string_of_Z z in
  (spaces (5 - String.length s)%nat ++ s)%string.

(** [std::endl]. *)
Definition endl : string := String (ascii_of_nat 10) "".

(** ** Vectors and index sets *)

Section Vectors.
Context {A : Type}.

(** [v[i]] for a [PetscInt] index; nothing outside the vector. *)
Definition vec_get (v : list A) (i : PetscInt) : option A :=
  if 0 <=? i then v !! Z.to_nat i else None.

(** [v[i] = a] for a [PetscInt] index; PETSc rejects an index outside the
    vector, the vector is then left as it was. *)
Definition vec_set (v : list A) (i : PetscInt) (a : A) : list A :=
  if 0 <=? i then <[Z.to_nat i := a]> v else v.

(** The send half of a forward scatter: the values [xin[ix[k]]], in the
    order of the index set. *)
Definition scatter_pack (xin : list A) (ix : list PetscInt) : list (option A) :=
  map (vec_get xin) ix.

(** The receive half with [INSERT_VALUES]: [yin[iy[k]] = value k], for
    [k] in increasing order. *)
Fixpoint scatter_unpack (iy : list PetscInt) (vals : list (option A))
         (yin : list A) : list A :=
  match iy, vals with
  | j :: iy', Some a :: vals' => scatter_unpack iy' vals' (vec_set yin j a)
  | _ :: iy', None :: vals' => scatter_unpack iy' vals' yin
  | _, _ => yin
  end.
End Vectors.

(** ** The state of one [Diffusion] object and of PETSc *)

(** The configuration of the Krylov solver [TheSolver] and of its
    preconditioner, as set through the [KSP...] and [PC...] calls. *)
Record KSPConfig := {
  ksp_type : option string;
  ksp_rtol : PetscReal;
  pc_type : option string;
  pc_gamg_type : option string;
  pc_gamg_nsmooths : option PetscInt
}.

(** What [KSPCreate] leaves: no type chosen yet, PETSc's default relative
    tolerance [1e-5]. *)
Definition KSP_defaults : KSPConfig :=
  {| ksp_type := None; ksp_rtol := (1 # 100000)%Q; pc_type := None;
     pc_gamg_type := None; pc_gamg_nsmooths := None |}.

Section Driver.
(** [double]: the entries of the vectors and the wall-clock readings.  No
    arithmetic on them is needed by the orchestration. *)
Context {scalar : Type}.
(** The value of the entries of a vector just created. *)
Variable zero : scalar.

(** Everything one invocation reads: the members of the [Diffusion] object
    (written by its constructor and by [Count_Globals], neither in this
    file), and the answers of the outside world. *)
Record Env := {
  comm_rank : Z;
  comm_size : Z;
  (** [refn_cycle] on entry to [Setup_System], after [Refine_Grid] and
      after [Count_Globals] *)
  refn_cycle : Z;
  refn_cycle_refined : Z;
  refn_cycle_counted : Z;
  num_global_DOFs_on_this_rank : PetscInt;
  num_global_DOFs_on_all_ranks : PetscInt;
  num_local_DOFs_on_this_rank : PetscInt;
  n_local_DOFs_connected_to_DOF : list PetscInt;
  n_nonlocal_DOFs_connected_to_DOF : list PetscInt;
  scatter_from : list PetscInt;
  scatter_to : list PetscInt;
  (** the options database *)
  options : PetscOptions;
  (** the error code returned by each PETSc call *)
  ierr : PetscCall -> PetscErrorCode;
  (** what [KSPSolve] leaves in [solution_vec] (all entries, global numbering) *)
  ksp_solution : list scalar;
  ksp_iterations : PetscInt;
  ksp_converged_reason : Z;
  (** the [k]-th reading of the clock, as text and as seconds *)
  date_time : nat -> string;
  wall_clock : nat -> scalar;
  (** [operator<<] of the difference of two [double]s *)
  show_elapsed : scalar -> scalar -> string
}.

(** What the calls of the [Diffusion] class and the output statements leave
    behind, in program order. *)
Inductive Event :=
| Petsc (c : PetscCall) (code : PetscErrorCode)
| Write (s : Stream) (text : string)
| Assemble_Globals
| Calculate_Internal_Unknowns (local_solution_vec_p : option (list scalar))
| Refine_Grid (refinement : Z)
| Count_Globals.

(** The PETSc side. *)
Record Petsc_state := {
  (** objects created and not yet destroyed *)
  live : gset Obj;
  (** the [MAT_SPD] flag of [global_mat] *)
  mat_spd : bool;
  solver : KSPConfig;
  (** the configuration [KSPSolve] ran with, once it has run *)
  solved_with : option KSPConfig;
  (** entries of [solution_vec] and of the sequential vector [x] *)
  solution_vec_data : list scalar;
  x_data : list scalar;
  (** the two index sets, the scatter context built from them, and the
      values in flight between [VecScatterBegin] and [VecScatterEnd] *)
  from_idx : list PetscInt;
  to_idx : list PetscInt;
  scatter_ctx : option (list PetscInt * list PetscInt);
  scatter_in_flight : option (list (option scalar))
}.

Record State := {
  petsc : Petsc_state;
  clock : nat;
  trace : list Event
}.

Definition no_objects : Petsc_state :=
  {| live := ∅; mat_spd := false; solver := KSP_defaults; solved_with := None;
     solution_vec_data := []; x_data := []; from_idx := []; to_idx := [];
     scatter_ctx := None; scatter_in_flight := None |}.

Definition initial_state : State :=
  {| petsc := no_objects; clock := O; trace := [] |}.

(** Field updates. *)
Definition set_live (f : gset Obj -> gset Obj) (p : Petsc_state) : Petsc_state :=
  {| live := f (live p); mat_spd := mat_spd p; solver := solver p;
     solved_with := solved_with p; solution_vec_data := solution_vec_data p;
     x_data := x_data p; from_idx := from_idx p; to_idx := to_idx p;
     scatter_ctx := scatter_ctx p; scatter_in_flight := scatter_in_flight p |}.

Definition set_mat_spd (b : bool) (p : Petsc_state) : Petsc_state :=
  {| live := live p; mat_spd := b; solver := solver p;
     solved_with := solved_with p; solution_vec_data := solution_vec_data p;
     x_data := x_data p; from_idx := from_idx p; to_idx := to_idx p;
     scatter_ctx := scatter_ctx p; scatter_in_flight := scatter_in_flight p |}.

Definition set_ksp (f : KSPConfig -> KSPConfig) (p : Petsc_state) : Petsc_state :=
  {| live := live p; mat_spd := mat_spd p; solver := f (solver p);
     solved_with := solved_with p; solution_vec_data := solution_vec_data p;
     x_data := x_data p; from_idx := from_idx p; to_idx := to_idx p;
     scatter_ctx := scatter_ctx p; scatter_in_flight := scatter_in_flight p |}.

Definition set_solved (sol : list scalar) (p : Petsc_state) : Petsc_state :=
  {| live := live p; mat_spd := mat_spd p; solver := solver p;
     solved_with := Some (solver p); solution_vec_data := sol;
     x_data := x_data p; from_idx := from_idx p; to_idx := to_idx p;
     scatter_ctx := scatter_ctx p; scatter_in_flight := scatter_in_flight p |}.

Definition set_x_data (f : list scalar -> list scalar) (p : Petsc_state) : Petsc_state :=
  {| live := live p; mat_spd := mat_spd p; solver := solver p;
     solved_with := solved_with p; solution_vec_data := solution_vec_data p;
     x_data := f (x_data p); from_idx := from_idx p; to_idx := to_idx p;
     scatter_ctx := scatter_ctx p; scatter_in_flight := scatter_in_flight p |}.

Definition set_from_idx (l : list PetscInt) (p : Petsc_state) : Petsc_state :=
  {| live := live p; mat_spd := mat_spd p; solver := solver p;
     solved_with := solved_with p; solution_vec_data := solution_vec_data p;
     x_data := x_data p; from_idx := l; to_idx := to_idx p;
     scatter_ctx := scatter_ctx p; scatter_in_flight := scatter_in_flight p |}.

Definition set_to_idx (l : list PetscInt) (p : Petsc_state) : Petsc_state :=
  {| live := live p; mat_spd := mat_spd p; solver := solver p;
     solved_with := solved_with p; solution_vec_data := solution_vec_data p;
     x_data := x_data p; from_idx := from_idx p; to_idx := l;
     scatter_ctx := scatter_ctx p; scatter_in_flight := scatter_in_flight p |}.

Definition set_scatter_ctx (c : option (list PetscInt * list PetscInt))
           (p : Petsc_state) : Petsc_state :=
  {| live := live p; mat_spd := mat_spd p; solver := solver p;
     solved_with := solved_with p; solution_vec_data := solution_vec_data p;
     x_data := x_data p; from_idx := from_idx p; to_idx := to_idx p;
     scatter_ctx := c; scatter_in_flight := scatter_in_flight p |}.

Definition set_in_flight (v : option (list (option scalar)))
           (p : Petsc_state) : Petsc_state :=
  {| live := live p; mat_spd := mat_spd p; solver := solver p;
     solved_with := solved_with p; solution_vec_data := solution_vec_data p;
     x_data := x_data p; from_idx := from_idx p; to_idx := to_idx p;
     scatter_ctx := scatter_ctx p; scatter_in_flight := v |}.

Definition create (o : Obj) : Petsc_state -> Petsc_state :=
  set_live (fun l => {[o]} ∪ l).
Definition destroy (o : Obj) : Petsc_state -> Petsc_state :=
  set_live (fun l => l ∖ {[o]}).

Definition with_ksp_type (ty : string) (c : KSPConfig) : KSPConfig :=
  {| ksp_type := Some ty; ksp_rtol := ksp_rtol c; pc_type := pc_type c;
     pc_gamg_type := pc_gamg_type c; pc_gamg_nsmooths := pc_gamg_nsmooths c |}.
Definition with_ksp_rtol (r : PetscReal) (c : KSPConfig) : KSPConfig :=
  {| ksp_type := ksp_type c; ksp_rtol := r; pc_type := pc_type c;
     pc_gamg_type := pc_gamg_type c; pc_gamg_nsmooths := pc_gamg_nsmooths c |}.
Definition with_pc_type (ty : string) (c : KSPConfig) : KSPConfig :=
  {| ksp_type := ksp_type c; ksp_rtol := ksp_rtol c; pc_type := Some ty;
     pc_gamg_type := pc_gamg_type c; pc_gamg_nsmooths := pc_gamg_nsmooths c |}.
Definition with_pc_gamg_type (ty : string) (c : KSPConfig) : KSPConfig :=
  {| ksp_type := ksp_type c; ksp_rtol := ksp_rtol c; pc_type := pc_type c;
     pc_gamg_type := Some ty; pc_gamg_nsmooths := pc_gamg_nsmooths c |}.
Definition with_pc_gamg_nsmooths (n : PetscInt) (c : KSPConfig) : KSPConfig :=
  {| ksp_type := ksp_type c; ksp_rtol := ksp_rtol c; pc_type := pc_type c;
     pc_gamg_type := pc_gamg_type c; pc_gamg_nsmooths := Some n |}.

(** An option of the database overrides a setting only when it was given. *)
Definition from_option {B} (o : option B) (set : B -> KSPConfig -> KSPConfig)
           (c : KSPConfig) : KSPConfig :=
  match o with
  | Some b => set b c
  | None => c
  end.

(** ** The monad of the driver: state, and the early [return] of [CHKERRQ] *)

Inductive Outcome (B : Type) :=
| Normal (b : B)
| Returned (code : PetscErrorCode).
Arguments Normal {B} b.
Arguments Returned {B} code.

Definition M (B : Type) : Type := State -> Outcome B * State.

#[global] Instance M_ret : MRet M := fun B b s => (Normal b, s).
#[global] Instance M_bind : MBind M := fun B C k m s =>
  match m s with
  | (Normal b, s') => k b s'
  | (Returned code, s') => (Returned code, s')
  end.

(** The value of a function body: what it returns, early or at its end. *)
Definition call_function (body : M PetscErrorCode) (s : State)
  : PetscErrorCode * State :=
  match body s with
  | (Normal code, s') => (code, s')
  | (Returned code, s') => (code, s')
  end.

Definition log (ev : Event) (s : State) : State :=
  {| petsc := petsc s; clock := clock s; trace := (trace s ++ [ev])%list |}.

Definition on_petsc (f : Petsc_state -> Petsc_state) (s : State) : State :=
  {| petsc := f (petsc s); clock := clock s; trace := trace s |}.

Definition tick (s : State) : State :=
  {| petsc := petsc s; clock := S (clock s); trace := trace s |}.

Definition emit (ev : Event) : M unit := fun s => (Normal tt, log ev s).

Definition when (b : bool) (m : M unit) : M unit :=
  if b then m else mret tt.

(** ** The calls *)

Variable e : Env.

(** A PETSc call returns the code the library answers with; what the call
    does to the objects happens when that code is [0]. *)
Definition petsc_call (c : PetscCall) (effect : Petsc_state -> Petsc_state)
  : M PetscErrorCode :=
  fun s =>
    let code := ierr e c in
    (Normal code, log (Petsc c code) (if code =? 0 then on_petsc effect s else s)).

(** [CHKERRQ(ierr)]: [if (ierr) return PetscError(..., ierr, ...)], which
    hands the code back to the caller. *)
Definition CHKERRQ (code : PetscErrorCode) : M unit :=
  fun s => if code =? 0 then (Normal tt, s) else (Returned code, s).

Definition no_effect (p : Petsc_state) : Petsc_state := p.

Definition MatCreate (A : Obj) := petsc_call (Call.MatCreate A) (create A).
Definition MatSetType (A : Obj) (ty : string) :=
  petsc_call (Call.MatSetType A ty) no_effect.
Definition MatSetSizes (A : Obj) (m n M N : PetscInt) :=
  petsc_call (Call.MatSetSizes A m n M N) no_effect.
Definition MatMPIAIJSetPreallocation (A : Obj) (d_nz : PetscInt)
           (d_nnz : list PetscInt) (o_nz : PetscInt) (o_nnz : list PetscInt) :=
  petsc_call (Call.MatMPIAIJSetPreallocation A d_nz d_nnz o_nz o_nnz) no_effect.
Definition MatGetOwnershipRange (A : Obj) :=
  petsc_call (Call.MatGetOwnershipRange A) no_effect.
Definition MatSetOption (A : Obj) (op : MatOption) (flg : bool) :=
  petsc_call (Call.MatSetOption A op flg)
             (match op with
              | MAT_SPD => set_mat_spd flg
              | MAT_ROW_ORIENTED => no_effect
              end).
Definition VecCreateMPI (n N : PetscInt) (v : Obj) :=
  petsc_call (Call.VecCreateMPI n N v) (create v).
Definition VecSetOption (v : Obj) (op : VecOption) (flg : bool) :=
  petsc_call (Call.VecSetOption v op flg) no_effect.
Definition VecDuplicate (v newv : Obj) :=
  petsc_call (Call.VecDuplicate v newv) (create newv).
Definition MatAssemblyBegin (A : Obj) (ty : MatAssemblyType) :=
  petsc_call (Call.MatAssemblyBegin A ty) no_effect.
Definition MatAssemblyEnd (A : Obj) (ty : MatAssemblyType) :=
  petsc_call (Call.MatAssemblyEnd A ty) no_effect.
Definition VecAssemblyBegin (v : Obj) := petsc_call (Call.VecAssemblyBegin v) no_effect.
Definition VecAssemblyEnd (v : Obj) := petsc_call (Call.VecAssemblyEnd v) no_effect.
(** The norms are computed and never used. *)
Definition VecNorm (v : Obj) (ty : NormType) := petsc_call (Call.VecNorm v ty) no_effect.

Definition KSPCreate (ksp : Obj) :=
  petsc_call (Call.KSPCreate ksp)
             (fun p => set_ksp (fun _ => KSP_defaults) (create ksp p)).
(** [PETSC_DEFAULT] leaves a tolerance as it is. *)
Definition KSPSetTolerances (ksp : Obj) (rtol abstol dtol : PetscReal)
           (maxits : PetscInt) :=
  petsc_call (Call.KSPSetTolerances ksp rtol abstol dtol maxits)
             (set_ksp (fun c => if Qeq_bool rtol PETSC_DEFAULT_REAL then c
                                   else with_ksp_rtol rtol c)).
Definition KSPSetOperators (ksp A P : Obj) :=
  petsc_call (Call.KSPSetOperators ksp A P) no_effect.
Definition KSPSetType (ksp : Obj) (ty : string) :=
  petsc_call (Call.KSPSetType ksp ty) (set_ksp (with_ksp_type ty)).
Definition PC_from_options (c : KSPConfig) : KSPConfig :=
  from_option (opt_pc_type (options e)) with_pc_type c.
(** [KSPSetFromOptions] reads [-ksp_type] and [-ksp_rtol], and sets the
    preconditioner of the solver from the options as well. *)
Definition KSPSetFromOptions (ksp : Obj) :=
  petsc_call (Call.KSPSetFromOptions ksp)
             (set_ksp (fun c =>
                PC_from_options
                  (from_option (opt_ksp_rtol (options e)) with_ksp_rtol
                     (from_option (opt_ksp_type (options e)) with_ksp_type c)))).
(** [ThePreCond] is the preconditioner inside [TheSolver], not a new object. *)
Definition KSPGetPC (ksp pc : Obj) := petsc_call (Call.KSPGetPC ksp pc) no_effect.
Definition PCSetFromOptions (pc : Obj) :=
  petsc_call (Call.PCSetFromOptions pc) (set_ksp PC_from_options).
Definition PCSetType (pc : Obj) (ty : string) :=
  petsc_call (Call.PCSetType pc ty) (set_ksp (with_pc_type ty)).
Definition PCGAMGSetType (pc : Obj) (ty : string) :=
  petsc_call (Call.PCGAMGSetType pc ty) (set_ksp (with_pc_gamg_type ty)).
Definition PCGAMGSetNSmooths (pc : Obj) (n : PetscInt) :=
  petsc_call (Call.PCGAMGSetNSmooths pc n) (set_ksp (with_pc_gamg_nsmooths n)).

(** [KSPSolve] runs with the configuration of the solver at that moment and
    fills the solution vector. *)
Definition KSPSolve (ksp b sol : Obj) :=
  petsc_call (Call.KSPSolve ksp b sol) (set_solved (ksp_solution e)).
(** The two queries write their answer through a pointer. *)
Definition KSPGetIterationNumber (ksp : Obj) : M PetscInt :=
  petsc_call (Call.KSPGetIterationNumber ksp) no_effect ;; mret (ksp_iterations e).
Definition KSPGetConvergedReason (ksp : Obj) : M Z :=
  petsc_call (Call.KSPGetConvergedReason ksp) no_effect ;; mret (ksp_converged_reason e).
Definition VecAXPY (y : Obj) (alpha : PetscReal) (v : Obj) :=
  petsc_call (Call.VecAXPY y alpha v) no_effect.

Definition VecCreateSeq (n : PetscInt) (v : Obj) :=
  petsc_call (Call.VecCreateSeq n v)
             (fun p => set_x_data (fun _ => replicate (Z.to_nat n) zero) (create v p)).
(** [ISCreateGeneral(comm, n, idx, PETSC_COPY_VALUES, &is)] copies the first
    [n] entries found at [idx]. *)
Definition ISCreateGeneral (n : PetscInt) (idx : list PetscInt)
           (mode : PetscCopyMode) (iset : Obj) :=
  petsc_call (Call.ISCreateGeneral n idx mode iset)
             (fun p =>
                let copied := take (Z.to_nat n) idx in
                match iset with
                | IS_from => set_from_idx copied (create iset p)
                | IS_to => set_to_idx copied (create iset p)
                | _ => create iset p
                end).
Definition VecScatterCreate (xin ix yin iy newctx : Obj) :=
  petsc_call (Call.VecScatterCreate xin ix yin iy newctx)
             (fun p => set_scatter_ctx (Some (from_idx p, to_idx p)) (create newctx p)).
(** [VecScatterBegin] reads the values [xin[ix[k]]]; [VecScatterEnd] stores
    them at [yin[iy[k]]]. *)
Definition VecScatterBegin (ctx xin yin : Obj) (addv : InsertMode) (mode : ScatterMode) :=
  petsc_call (Call.VecScatterBegin ctx xin yin addv mode)
             (fun p =>
                match scatter_ctx p with
                | Some (ix, _) =>
                    set_in_flight (Some (scatter_pack (solution_vec_data p) ix)) p
                | None => p
                end).
Definition VecScatterEnd (ctx xin yin : Obj) (addv : InsertMode) (mode : ScatterMode) :=
  petsc_call (Call.VecScatterEnd ctx xin yin addv mode)
             (fun p =>
                match scatter_ctx p, scatter_in_flight p with
                | Some (_, iy), Some vals =>
                    set_in_flight None (set_x_data (scatter_unpack iy vals) p)
                | _, _ => p
                end).
(** [VecGetArray(x, &p)]: the pointer is set when the call succeeds and is
    left uninitialised ([None]) otherwise. *)
Definition VecGetArray (v : Obj) : M (option (list scalar)) :=
  fun s =>
    let code := ierr e (Call.VecGetArray v) in
    (Normal (if code =? 0 then Some (x_data (petsc s)) else None),
     log (Petsc (Call.VecGetArray v) code) s).
Definition MatDestroy (A : Obj) := petsc_call (Call.MatDestroy A) (destroy A).
Definition VecDestroy (v : Obj) := petsc_call (Call.VecDestroy v) (destroy v).

Definition MPI_Wtime : M scalar := fun s => (Normal (wall_clock e (clock s)), tick s).
Definition currentDateTime : M string := fun s => (Normal (date_time e (clock s)), tick s).

(** [stream << text]. *)
Definition put (stream : Stream) (text : string) : M unit := emit (Write stream text).

(** ** [Diffusion<dim>::OutLogger] (lines 54-63) *)

Definition OutLogger (logger : Stream) (log_ : string) (insert_eol : bool) : M unit :=
  when (comm_rank e =? 0)
       (if insert_eol
        then put logger (log_ ++ endl)%string
        else put logger log_).

(** ** [Diffusion<dim>::Solve_Linear_Systam] (lines 92-230) *)

Definition Solve_Linear_Systam : M PetscErrorCode :=
  MatCreate global_mat ;;
  MatSetType global_mat MATMPIAIJ ;;
  MatSetSizes global_mat
              (num_global_DOFs_on_this_rank e)
              (num_global_DOFs_on_this_rank e)
              (num_global_DOFs_on_all_ranks e)
              (num_global_DOFs_on_all_ranks e) ;;
  MatMPIAIJSetPreallocation global_mat
                            0
                            (n_local_DOFs_connected_to_DOF e)
                            0
                            (n_nonlocal_DOFs_connected_to_DOF e) ;;
  MatGetOwnershipRange global_mat ;;
  MatSetOption global_mat MAT_ROW_ORIENTED false ;;
  MatSetOption global_mat MAT_SPD true ;;

  VecCreateMPI (num_global_DOFs_on_this_rank e) (num_global_DOFs_on_all_ranks e) RHS_vec ;;
  VecSetOption RHS_vec VEC_IGNORE_NEGATIVE_INDICES true ;;
  VecDuplicate RHS_vec solution_vec ;;
  VecDuplicate RHS_vec exact_solution ;;

  when (comm_rank e =? 0)
       (now ← currentDateTime;
        put Execution_Time ("Entering assembly : " ++ now ++ endl)%string) ;;
  t11 ← MPI_Wtime;
  emit Assemble_Globals ;;
  t21 ← MPI_Wtime;
  when (comm_rank e =? 0)
       (now ← currentDateTime;
        put Execution_Time ("Has finished assembly : " ++ now ++ endl)%string) ;;

  when (comm_rank e =? 0)
       (now ← currentDateTime;
        put Execution_Time ("Entering solver : " ++ now ++ endl)%string) ;;

  t12 ← MPI_Wtime;
  assem_error ← MatAssemblyBegin global_mat MAT_FINAL_ASSEMBLY;
  CHKERRQ assem_error ;;
  assem_error ← MatAssemblyEnd global_mat MAT_FINAL_ASSEMBLY;
  CHKERRQ assem_error ;;

  VecAssemblyBegin RHS_vec ;;
  VecAssemblyEnd RHS_vec ;;
  VecNorm RHS_vec NORM_2 ;;

  VecAssemblyBegin exact_solution ;;
  VecAssemblyEnd exact_solution ;;

  KSPCreate TheSolver ;;
  KSPSetTolerances TheSolver tol_1E_8 PETSC_DEFAULT_REAL PETSC_DEFAULT_REAL PETSC_DEFAULT ;;
  KSPSetOperators TheSolver global_mat global_mat ;;
  KSPSetType TheSolver KSPCG ;;
  KSPSetFromOptions TheSolver ;;

  KSPGetPC TheSolver ThePreCond ;;
  PCSetFromOptions ThePreCond ;;

  PCSetType ThePreCond PCGAMG ;;
  PCGAMGSetType ThePreCond PCGAMGAGG ;;
  PCGAMGSetNSmooths ThePreCond 1 ;;

  KSPSolve TheSolver RHS_vec solution_vec ;;
  num_iter ← KSPGetIterationNumber TheSolver;
  How_KSP_Stopped ← KSPGetConvergedReason TheSolver;
  when (comm_rank e =? 0)
       (put Execution_Time
            ("Converged reason is: " ++ string_of_Z How_KSP_Stopped ++ endl)%string ;;
        put Execution_Time
            ("Number of iterations is: " ++ string_of_Z num_iter ++ endl)%string) ;;
  VecNorm solution_vec NORM_2 ;;
  when (comm_rank e =? 0)
       (now ← currentDateTime;
        put Execution_Time ("Finished solver : " ++ now ++ endl)%string) ;;

  VecAXPY exact_solution (-1 # 1)%Q solution_vec ;;
  VecNorm exact_solution NORM_2 ;;

  VecCreateSeq (num_local_DOFs_on_this_rank e) Vec_x ;;
  ISCreateGeneral (num_local_DOFs_on_this_rank e)
                  (scatter_from e)
                  PETSC_COPY_VALUES
                  IS_from ;;
  ISCreateGeneral (num_local_DOFs_on_this_rank e)
                  (scatter_to e)
                  PETSC_COPY_VALUES
                  IS_to ;;
  VecScatterCreate solution_vec IS_from Vec_x IS_to VecScatter_scatter ;;
  VecScatterBegin VecScatter_scatter solution_vec Vec_x INSERT_VALUES SCATTER_FORWARD ;;
  VecScatterEnd VecScatter_scatter solution_vec Vec_x INSERT_VALUES SCATTER_FORWARD ;;

  local_solution_vec_p ← VecGetArray Vec_x;
  t22 ← MPI_Wtime;

  when (comm_rank e =? 0)
       (now ← currentDateTime;
        put Execution_Time ("Entering local solver : " ++ now ++ endl)%string) ;;
  t13 ← MPI_Wtime;
  emit (Calculate_Internal_Unknowns local_solution_vec_p) ;;
  t23 ← MPI_Wtime;
  when (comm_rank e =? 0)
       (now ← currentDateTime;
        put Execution_Time ("Finished local solver : " ++ now ++ endl)%string) ;;

  when (comm_rank e =? 0)
       (put cout (show_elapsed e t11 t21 ++ " " ++ show_elapsed e t12 t22 ++ " "
                  ++ show_elapsed e t13 t23 ++ endl)%string) ;;

  MatDestroy global_mat ;;
  VecDestroy RHS_vec ;;
  VecDestroy exact_solution ;;
  VecDestroy solution_vec ;;
  VecDestroy Vec_x ;;

  mret 0.

(** ** [Diffusion<dim>::Setup_System] (lines 232-270) *)

Definition Setup_System (refinement : Z) : M unit :=
  let buffer := ("Rank " ++ fmt_5d (comm_rank e) ++ " is in cycle "
                 ++ fmt_5d (refn_cycle e) ++ " and entering refinement: ")%string in
  when (comm_rank e =? comm_size e)
       (now ← currentDateTime; put cout (buffer ++ now ++ endl)%string) ;;
  emit (Refine_Grid refinement) ;;
  let buffer := ("Rank " ++ fmt_5d (comm_rank e) ++ " is in cycle "
                 ++ fmt_5d (refn_cycle_refined e) ++ " and has exited  refinement: ")%string in
  when (comm_rank e =? comm_size e)
       (now ← currentDateTime; put cout (buffer ++ now ++ endl)%string) ;;

  let buffer := ("Rank " ++ fmt_5d (comm_rank e) ++ " is in cycle "
                 ++ fmt_5d (refn_cycle_refined e) ++ " and is entering counter: ")%string in
  when (comm_rank e =? 0)
       (now ← currentDateTime; put Execution_Time (buffer ++ now ++ endl)%string) ;;

  emit Count_Globals ;;
  let buffer := ("Rank " ++ fmt_5d (comm_rank e) ++ " is in cycle "
                 ++ fmt_5d (refn_cycle_counted e) ++ " and has exited  counter: ")%string in
  when (comm_rank e =? 0)
       (now ← currentDateTime; put Execution_Time (buffer ++ now ++ endl)%string).
End Driver.

Arguments Normal {B} b.
Arguments Returned {B} code.

(** ** [main] (lines 345-460) *)

(** [(unsigned)i] for a 32-bit [int]. *)
Definition to_unsigned (i : Z) : Z := i mod 2 ^ 32.

(** [for (unsigned i = lo; i < hi; ++i) body], the state threaded through;
    [fuel] bounds the number of times the condition is evaluated. *)
Fixpoint for_unsigned {S : Type} (fuel : nat) (i hi : Z)
         (body : Z -> S -> option S) (s : S) : option S :=
  match fuel with
  | O => None
  | S fuel' =>
      if i <? hi
      then match body i s with
           | Some s' => for_unsigned fuel' (to_unsigned (i + 1)) hi body s'
           | None => None
           end
      else Some s
  end.

(** [PetscOptionsGetInt(NULL, name, &var, &found)]: the variable is written
    only when the option was given. *)
Definition PetscOptionsGetInt (o : option Z) (var : Z) : Z * bool :=
  match o with
  | Some v => (v, true)
  | None => (var, false)
  end.

(** [PetscOptionsGetString(NULL, name, buf, len, &found)]: at most [len - 1]
    characters are copied into the buffer. *)
Definition PetscOptionsGetString (o : option string) (buf : string) (len : nat)
  : string * bool :=
  match o with
  | Some v => (substring 0 (len - 1) v, true)
  | None => (buf, false)
  end.

Section Main.
Context {scalar : Type}.
Variable zero : scalar.

(** What a run of [main] on one rank reads. *)
Record MainEnv := {
  rank : Z;
  size : Z;
  main_options : PetscOptions;
  (** [omp_get_max_threads()] when compiled with [_OPENMP] *)
  OPENMP_max_threads : option Z;
  (** the values the four uninitialised [int]s happen to hold *)
  p_1_uninitialised : Z;
  p_2_uninitialised : Z;
  h_1_uninitialised : Z;
  h_2_uninitialised : Z;
  (** the [Diffusion] object and the outside world, as [Setup_System] and
      [Solve_Linear_Systam] find them for degree [p1] and level [h1] *)
  at_Setup_System : Z -> Z -> Env (scalar := scalar);
  at_Solve_Linear_Systam : Z -> Z -> Env (scalar := scalar)
}.

Inductive MainEvent :=
| SlepcInitialize
| Main_cout (text : string)
| Truncate_file (name : string)
| Construct_Diffusion (p1 : Z) (size rank : Z) (number_of_threads : Z) (Adaptive : Z)
| Call_Setup_System (h1 : Z) (events : list (Event (scalar := scalar)))
| Call_Solve_Linear_Systam (returned : PetscErrorCode)
                           (events : list (Event (scalar := scalar)))
| Call_vtk_visualizer
| Destruct_Diffusion
| SlepcFinalize.

Record MainState := {
  world : Petsc_state (scalar := scalar);
  time : nat;
  main_trace : list MainEvent
}.

Definition record (ev : MainEvent) (s : MainState) : MainState :=
  {| world := world s; time := time s; main_trace := (main_trace s ++ [ev])%list |}.

(** A member function runs on the PETSc state and the clock of the process
    and leaves its own events. *)
Definition enter (s : MainState) : State :=
  {| petsc := world s; clock := time s; trace := [] |}.

Definition leave (ev : list Event -> MainEvent) (s : MainState)
           (s' : State (scalar := scalar)) : MainState :=
  {| world := petsc s'; time := clock s';
     main_trace := (main_trace s ++ [ev (trace s')])%list |}.

Definition help_line : string :=
  (endl ++ "mpiexec -n 8 ./A1 -h_0 2 -h_n 12 -p_0 1 -p_n 2 -amr 1 " ++ endl)%string.

Definition face_basis_message : string :=
  (" HEY! : The face basis type should either be <nodal> or <modal> (default). "
   ++ endl ++ endl)%string.

(** The body of the inner loop (lines 452-454); what [Solve_Linear_Systam]
    returns is dropped. *)
Definition level_body (env : MainEnv) (p1 h1 : Z) (s : MainState) : option MainState :=
  let s :=
    leave (Call_Setup_System h1) s
          (snd (Setup_System (at_Setup_System env p1 h1) h1 (enter s))) in
  let '(code, s') :=
    call_function (Solve_Linear_Systam zero (at_Solve_Linear_Systam env p1 h1))
                  (enter s) in
  let s := leave (Call_Solve_Linear_Systam code) s s' in
  Some (record Call_vtk_visualizer s).

(** The body of the outer loop (lines 449-455): [diff0] lives for one
    degree. *)
Definition degree_body (fuel : nat) (env : MainEnv)
           (number_of_threads Adaptive h_1 h_2 : Z) (p1 : Z) (s : MainState)
  : option MainState :=
  let s := record (Construct_Diffusion p1 (size env) (rank env)
                                       number_of_threads Adaptive) s in
  match
    for_unsigned fuel (to_unsigned h_1) (to_unsigned h_2) (level_body env p1) s
  with
  | Some s => Some (record Destruct_Diffusion s)
  | None => None
  end.

(** [found_options] (lines 397-414) is computed and never read; it is left
    out. *)
Definition main (fuel : nat) (env : MainEnv) : option (Z * MainState) :=
  let s := {| world := no_objects; time := O; main_trace := [SlepcInitialize] |} in
  let number_of_threads :=
    match OPENMP_max_threads env with
    | Some n => n
    | None => 1
    end in
  let buffer :=
    ("There are " ++ string_of_Z number_of_threads ++ " threads available." ++ endl)%string in
  let s :=
    if rank env =? 0
    then record (Truncate_file "Execution_Time.txt")
           (record (Truncate_file "Convergence_Result.txt")
              (record (Main_cout (help_line ++ endl)%string) s))
    else s in
  let face_basis_type := "legendre" in
  let Adaptive := 0 in
  let '(p_1, _) := PetscOptionsGetInt (opt_p_0 (main_options env)) (p_1_uninitialised env) in
  let '(p_2, _) := PetscOptionsGetInt (opt_p_n (main_options env)) (p_2_uninitialised env) in
  let '(h_1, _) := PetscOptionsGetInt (opt_h_0 (main_options env)) (h_1_uninitialised env) in
  let '(h_2, _) := PetscOptionsGetInt (opt_h_n (main_options env)) (h_2_uninitialised env) in
  let '(Adaptive, _) := PetscOptionsGetInt (opt_amr (main_options env)) Adaptive in
  let '(face_basis_type, face_basis_option_flag) :=
    PetscOptionsGetString (opt_face_basis (main_options env)) face_basis_type 100 in
  let s :=
    if face_basis_option_flag
    then if String.eqb face_basis_type "lagrange" then s
         else if String.eqb face_basis_type "legendre" then s
         else if rank env =? 0
              then record (Main_cout (buffer ++ endl)%string)
                     (record (Main_cout face_basis_message) s)
              else s
    else s in
  match
    for_unsigned fuel (to_unsigned p_1) (to_unsigned p_2)
                 (degree_body fuel env number_of_threads Adaptive h_1 h_2) s
  with
  | Some s => Some (0, record SlepcFinalize s)
  | None => None
  end.
End Main.

(** ** [Tokenize] (lines 71-84) *)

(** The part of [std::string] the function uses; a string is the list of
    its characters, a position a [size_t]. *)
Module StdString.
(** [std::string::npos], the largest [size_t] (64 bits). *)
Definition npos : Z := 2 ^ 64 - 1.

(** Arithmetic on [size_t] wraps around. *)
Definition to_size_t (z : Z) : Z := z mod 2 ^ 64.

Definition is_any_of (chars : list ascii) (c : ascii) : bool := bool_decide (c ∈ chars).

(** The index of the first character of [l] that satisfies [P], [l]
    starting at index [i] of the string; [npos] when there is none. *)
Fixpoint find_if (P : ascii -> bool) (l : list ascii) (i : Z) : Z :=
  match l with
  | [] => npos
  | c :: l' => if P c then i else find_if P l' (i + 1)
  end.

(** [s.find_first_of(chars, pos)]: the search starts at [pos]; a [pos] at
    or after the end finds nothing. *)
Definition find_first_of (s chars : list ascii) (pos : Z) : Z :=
  if pos <? Z.of_nat (length s)
  then find_if (is_any_of chars) (drop (Z.to_nat pos) s) pos
  else npos.

(** [s.find_first_not_of(chars, pos)]. *)
Definition find_first_not_of (s chars : list ascii) (pos : Z) : Z :=
  if pos <? Z.of_nat (length s)
  then find_if (fun c => negb (is_any_of chars c)) (drop (Z.to_nat pos) s) pos
  else npos.

(** [s.substr(pos, count)]: throws [std::out_of_range] ([None]) when
    [pos > size()]; otherwise the characters from [pos], at most [count] of
    them and no further than the end. *)
Definition substr (s : list ascii) (pos count : Z) : option (list ascii) :=
  if Z.of_nat (length s) <? pos then None
  else Some (take (Z.to_nat (Z.min count (Z.of_nat (length s) - pos)))
                  (drop (Z.to_nat pos) s)).
End StdString.
Import StdString.

(** How a run of the loop ends: normally, by the exception of [substr], or
    with the bound on the number of iterations used up. *)
Inductive Run (A : Type) :=
| Finished (a : A)
| Thrown
| Out_of_fuel.
Arguments Finished {A} a.
Arguments Thrown {A}.
Arguments Out_of_fuel {A}.

(** The [while] loop of lines 78-83; [pos - lastPos] is computed in
    [size_t]. *)
Fixpoint Tokenize_while (fuel : nat) (str_in delimiters : list ascii)
         (lastPos pos : Z) (tokens : list (list ascii)) : Run (list (list ascii)) :=
  if negb (npos =? pos) || negb (npos =? lastPos)
  then match fuel with
       | O => Out_of_fuel
       | S fuel' =>
           match substr str_in lastPos (to_size_t (pos - lastPos)) with
           | None => Thrown
           | Some token =>
               let tokens := (tokens ++ [token])%list in
               let lastPos := find_first_not_of str_in delimiters pos in
               let pos := find_first_of str_in delimiters lastPos in
               Tokenize_while fuel' str_in delimiters lastPos pos tokens
           end
       end
  else Finished tokens.

(** [Tokenize(str_in, tokens, delimiters)]; the vector [tokens] is passed
    by reference and is returned here. *)
Definition Tokenize (fuel : nat) (str_in : list ascii) (tokens : list (list ascii))
           (delimiters : list ascii) : Run (list (list ascii)) :=
  let lastPos := find_first_not_of str_in delimiters 0 in
  let pos := find_first_of str_in delimiters lastPos in
  Tokenize_while fuel str_in delimiters lastPos pos tokens.

(** ** [parse_my_options] (lines 282-337) *)

(** The five variables the function writes through its reference
    parameters. *)
Module Parsed.
Record t := {
  Adaptive : bool;
  p_1 : Z;
  p_2 : Z;
  h_1 : Z;
  h_2 : Z
}.
End Parsed.

Section ParseMyOptions.
(** [atoi] of the C library. *)
Variable atoi : string -> Z.

(** [if (rank == 0) std::cout << text << std::endl;] *)
Definition rank_0_says (rank : Z) (console : list string) (text : string) : list string :=
  if rank =? 0 then (console ++ [(text ++ endl)%string])%list else console.

(** The body of the [switch] for one answer [(opt, optarg)] of
    [getopt_long_only], which returns the character of the option (['a'] is
    97, ['p'] 112, ['q'] 113, ['h'] 104, ['l'] 108); the [unsigned]
    variables receive the [int] that [atoi] returns. *)
Definition parse_my_option (rank : Z) (opt : Z) (optarg : string)
           (v : Parsed.t) (console : list string) : Parsed.t * list string :=
  match opt with
  | 97 =>
      ({| Parsed.Adaptive := true; Parsed.p_1 := Parsed.p_1 v;
          Parsed.p_2 := Parsed.p_2 v; Parsed.h_1 := Parsed.h_1 v;
          Parsed.h_2 := Parsed.h_2 v |},
       rank_0_says rank console "Used -adaptive option; adaptive is on.")
  | 112 =>
      let p_1 := to_unsigned (atoi optarg) in
      ({| Parsed.Adaptive := Parsed.Adaptive v; Parsed.p_1 := p_1;
          Parsed.p_2 := Parsed.p_2 v; Parsed.h_1 := Parsed.h_1 v;
          Parsed.h_2 := Parsed.h_2 v |},
       rank_0_says rank console
                   ("Used -p_0 option; starting order is: " ++ string_of_Z p_1)%string)
  | 113 =>
      let p_2 := to_unsigned (atoi optarg) in
      ({| Parsed.Adaptive := Parsed.Adaptive v; Parsed.p_1 := Parsed.p_1 v;
          Parsed.p_2 := p_2; Parsed.h_1 := Parsed.h_1 v;
          Parsed.h_2 := Parsed.h_2 v |},
       rank_0_says rank console
                   ("Used -p_n option; final order is: " ++ string_of_Z p_2)%string)
  | 104 =>
      let h_1 := to_unsigned (atoi optarg) in
      ({| Parsed.Adaptive := Parsed.Adaptive v; Parsed.p_1 := Parsed.p_1 v;
          Parsed.p_2 := Parsed.p_2 v; Parsed.h_1 := h_1;
          Parsed.h_2 := Parsed.h_2 v |},
       rank_0_says rank console
                   ("Used -h_0 option; starting refinement cycle is: "
                    ++ string_of_Z h_1)%string)
  | 108 =>
      let h_2 := to_unsigned (atoi optarg) in
      ({| Parsed.Adaptive := Parsed.Adaptive v; Parsed.p_1 := Parsed.p_1 v;
          Parsed.p_2 := Parsed.p_2 v; Parsed.h_1 := Parsed.h_1 v;
          Parsed.h_2 := h_2 |},
       rank_0_says rank console
                   ("Used -h_n option; final refinement cycle is: "
                    ++ string_of_Z h_2)%string)
  | _ => (v, console)
  end.

(** The [while] loop over the answers of [getopt_long_only], which are an
    input: the loop ends at the first [-1], which the library returns at
    the latest when the arguments are used up (the end of the list). *)
Fixpoint parse_my_options (rank : Z) (answers : list (Z * string))
         (v : Parsed.t) (console : list string) : Parsed.t * list string :=
  match answers with
  | [] => (v, console)
  | (opt, optarg) :: answers' =>
      if opt =? -1 then (v, console)
      else let '(v', console') := parse_my_option rank opt optarg v console in
           parse_my_options rank answers' v' console'
  end.
End ParseMyOptions.

(** * The contract, stated on traces *)

(** The events of a trace that are output, with their stream. *)
Definition is_write {scalar} (ev : Event (scalar := scalar)) : bool :=
  match ev with
  | Write _ _ => true
  | _ => false
  end.

Definition writes {scalar} (t : list (Event (scalar := scalar))) : list Event :=
  List.filter is_write t.

Definition is_write_to {scalar} (stream : Stream) (ev : Event (scalar := scalar)) : bool :=
  match ev with
  | Write s' _ => bool_decide (s' = stream)
  | _ => false
  end.

Definition writes_to {scalar} (stream : Stream) (t : list (Event (scalar := scalar)))
  : list Event :=
  List.filter (is_write_to stream) t.

(** The same invocation, had the solver stopped for another reason. *)
Definition with_reason {scalar} (reason : Z) (e : Env (scalar := scalar)) : Env :=
  {| comm_rank := comm_rank e; comm_size := comm_size e;
     refn_cycle := refn_cycle e; refn_cycle_refined := refn_cycle_refined e;
     refn_cycle_counted := refn_cycle_counted e;
     num_global_DOFs_on_this_rank := num_global_DOFs_on_this_rank e;
     num_global_DOFs_on_all_ranks := num_global_DOFs_on_all_ranks e;
     num_local_DOFs_on_this_rank := num_local_DOFs_on_this_rank e;
     n_local_DOFs_connected_to_DOF := n_local_DOFs_connected_to_DOF e;
     n_nonlocal_DOFs_connected_to_DOF := n_nonlocal_DOFs_connected_to_DOF e;
     scatter_from := scatter_from e; scatter_to := scatter_to e;
     options := options e; ierr := ierr e; ksp_solution := ksp_solution e;
     ksp_iterations := ksp_iterations e; ksp_converged_reason := reason;
     date_time := date_time e; wall_clock := wall_clock e;
     show_elapsed := show_elapsed e |}.

(** Every PETSc call of the invocation succeeds. *)
Definition petsc_ok {scalar} (e : Env (scalar := scalar)) : Prop :=
  forall c, ierr e c = 0.

(** The two checked calls succeed. *)
Definition assembly_ok {scalar} (e : Env (scalar := scalar)) : Prop :=
  ierr e (Call.MatAssemblyBegin global_mat MAT_FINAL_ASSEMBLY) = 0 /\
  ierr e (Call.MatAssemblyEnd global_mat MAT_FINAL_ASSEMBLY) = 0.

(** The stages of the pipeline of section 4.3 to 4.5, as the events each one
    leaves.  [c0] is the reading of the clock on entry. *)
Section Pipeline.
Context {scalar : Type}.
Variable e : Env (scalar := scalar).
Variable c0 : nat.

Definition called (c : PetscCall) : Event (scalar := scalar) := Petsc c (ierr e c).

(** A time-stamped milestone of the execution-time log: rank 0 only. *)
Definition milestone (label : string) (k : nat) : list (Event (scalar := scalar)) :=
  if comm_rank e =? 0
  then [Write Execution_Time (label ++ date_time e (k + c0) ++ endl)%string]
  else [].

Definition stage_create : list (Event (scalar := scalar)) :=
  [called (Call.MatCreate global_mat);
   called (Call.MatSetType global_mat MATMPIAIJ);
   called (Call.MatSetSizes global_mat
             (num_global_DOFs_on_this_rank e) (num_global_DOFs_on_this_rank e)
             (num_global_DOFs_on_all_ranks e) (num_global_DOFs_on_all_ranks e));
   called (Call.MatMPIAIJSetPreallocation global_mat
             0 (n_local_DOFs_connected_to_DOF e)
             0 (n_nonlocal_DOFs_connected_to_DOF e));
   called (Call.MatGetOwnershipRange global_mat);
   called (Call.MatSetOption global_mat MAT_ROW_ORIENTED false);
   called (Call.MatSetOption global_mat MAT_SPD true);
   called (Call.VecCreateMPI (num_global_DOFs_on_this_rank e)
                             (num_global_DOFs_on_all_ranks e) RHS_vec);
   called (Call.VecSetOption RHS_vec VEC_IGNORE_NEGATIVE_INDICES true);
   called (Call.VecDuplicate RHS_vec solution_vec);
   called (Call.VecDuplicate RHS_vec exact_solution)].

Definition stage_assemble : list (Event (scalar := scalar)) :=
  (milestone "Entering assembly : " 0
   ++ [Assemble_Globals]
   ++ milestone "Has finished assembly : " 3
   ++ milestone "Entering solver : " 4)%list.

(** Finalization of the matrix: the two calls whose code is checked. *)
Definition stage_finalize_begin : list (Event (scalar := scalar)) :=
  [called (Call.MatAssemblyBegin global_mat MAT_FINAL_ASSEMBLY)].
Definition stage_finalize_end : list (Event (scalar := scalar)) :=
  [called (Call.MatAssemblyEnd global_mat MAT_FINAL_ASSEMBLY)].

Definition stage_finalize_vectors : list (Event (scalar := scalar)) :=
  [called (Call.VecAssemblyBegin RHS_vec);
   called (Call.VecAssemblyEnd RHS_vec);
   called (Call.VecNorm RHS_vec NORM_2);
   called (Call.VecAssemblyBegin exact_solution);
   called (Call.VecAssemblyEnd exact_solution)].

Definition stage_configure : list (Event (scalar := scalar)) :=
  [called (Call.KSPCreate TheSolver);
   called (Call.KSPSetTolerances TheSolver tol_1E_8 PETSC_DEFAULT_REAL
                                 PETSC_DEFAULT_REAL PETSC_DEFAULT);
   called (Call.KSPSetOperators TheSolver global_mat global_mat);
   called (Call.KSPSetType TheSolver KSPCG);
   called (Call.KSPSetFromOptions TheSolver);
   called (Call.KSPGetPC TheSolver ThePreCond);
   called (Call.PCSetFromOptions ThePreCond);
   called (Call.PCSetType ThePreCond PCGAMG);
   called (Call.PCGAMGSetType ThePreCond PCGAMGAGG);
   called (Call.PCGAMGSetNSmooths ThePreCond 1)].

Definition stage_solve : list (Event (scalar := scalar)) :=
  [called (Call.KSPSolve TheSolver RHS_vec solution_vec)].

(** The stopping reason and the iteration count are fetched on every rank
    and written to the log on rank 0. *)
Definition stage_record (reason iterations : Z) : list (Event (scalar := scalar)) :=
  ([called (Call.KSPGetIterationNumber TheSolver);
    called (Call.KSPGetConvergedReason TheSolver)]
   ++ (if comm_rank e =? 0
       then [Write Execution_Time
                   ("Converged reason is: " ++ string_of_Z reason ++ endl)%string;
             Write Execution_Time
                   ("Number of iterations is: " ++ string_of_Z iterations ++ endl)%string]
       else []))%list.

Definition stage_scatter : list (Event (scalar := scalar)) :=
  ([called (Call.VecNorm solution_vec NORM_2)]
   ++ milestone "Finished solver : " 6
   ++ [called (Call.VecAXPY exact_solution (-1 # 1)%Q solution_vec);
       called (Call.VecNorm exact_solution NORM_2);
       called (Call.VecCreateSeq (num_local_DOFs_on_this_rank e) Vec_x);
       called (Call.ISCreateGeneral (num_local_DOFs_on_this_rank e) (scatter_from e)
                                    PETSC_COPY_VALUES IS_from);
       called (Call.ISCreateGeneral (num_local_DOFs_on_this_rank e) (scatter_to e)
                                    PETSC_COPY_VALUES IS_to);
       called (Call.VecScatterCreate solution_vec IS_from Vec_x IS_to VecScatter_scatter);
       called (Call.VecScatterBegin VecScatter_scatter solution_vec Vec_x
                                    INSERT_VALUES SCATTER_FORWARD);
       called (Call.VecScatterEnd VecScatter_scatter solution_vec Vec_x
                                  INSERT_VALUES SCATTER_FORWARD);
       called (Call.VecGetArray Vec_x)])%list.

Definition stage_post_solve (local_solution_vec_p : option (list scalar))
  : list (Event (scalar := scalar)) :=
  (milestone "Entering local solver : " 8
   ++ [Calculate_Internal_Unknowns local_solution_vec_p]
   ++ milestone "Finished local solver : " 11
   ++ (if comm_rank e =? 0
       then [Write cout
                   (show_elapsed e (wall_clock e (1 + c0)) (wall_clock e (2 + c0)) ++ " "
                    ++ show_elapsed e (wall_clock e (5 + c0)) (wall_clock e (7 + c0)) ++ " "
                    ++ show_elapsed e (wall_clock e (9 + c0)) (wall_clock e (10 + c0))
                    ++ endl)%string]
       else []))%list.

Definition stage_destroy : list (Event (scalar := scalar)) :=
  [called (Call.MatDestroy global_mat);
   called (Call.VecDestroy RHS_vec);
   called (Call.VecDestroy exact_solution);
   called (Call.VecDestroy solution_vec);
   called (Call.VecDestroy Vec_x)].

(** The readings of the clock an invocation makes: the milestones are
    stamped on rank 0 only. *)
Definition clock_readings (on_rank_0 others : nat) : nat :=
  if comm_rank e =? 0 then (on_rank_0 + c0)%nat else (others + c0)%nat.
End Pipeline.

(** The whole pipeline, in order: [reason] is the stopping reason the solver
    reported and [arr] the array handed to the local post-solve. *)
Definition pipeline {scalar} (e : Env (scalar := scalar)) (c0 : nat) (reason : Z)
           (arr : option (list scalar)) : list (Event (scalar := scalar)) :=
  (stage_create e ++ stage_assemble e c0
   ++ stage_finalize_begin e ++ stage_finalize_end e ++ stage_finalize_vectors e
   ++ stage_configure e ++ stage_solve e
   ++ stage_record e reason (ksp_iterations e)
   ++ stage_scatter e c0 ++ stage_post_solve e c0 arr
   ++ stage_destroy e)%list.

(** The events of [Setup_System] on a rank below the size of the
    communicator: the refinement, the count, and on rank 0 the two
    milestones of the count. *)
Definition Setup_events {scalar} (e : Env (scalar := scalar)) (c0 : nat) (refinement : Z)
  : list (Event (scalar := scalar)) :=
  ([Refine_Grid refinement]
   ++ (if comm_rank e =? 0
       then [Write Execution_Time
                   (("Rank " ++ fmt_5d (comm_rank e) ++ " is in cycle "
                     ++ fmt_5d (refn_cycle_refined e) ++ " and is entering counter: ")
                    ++ date_time e c0 ++ endl)%string]
       else [])
   ++ [Count_Globals]
   ++ (if comm_rank e =? 0
       then [Write Execution_Time
                   (("Rank " ++ fmt_5d (comm_rank e) ++ " is in cycle "
                     ++ fmt_5d (refn_cycle_counted e) ++ " and has exited  counter: ")
                    ++ date_time e (1 + c0) ++ endl)%string]
       else []))%list.

(** What an invocation returns and leaves, by the codes of the two checked
    calls: the whole pipeline when both are [0], an early return with the
    code otherwise.  [p'] is the state of the PETSc objects and [arr] the
    array handed to the local post-solve. *)
Definition Solve_outcome {scalar} (e : Env (scalar := scalar)) (s : State)
           (p' : Petsc_state) (arr : option (list scalar)) : PetscErrorCode * State :=
  let c0 := clock s in
  let begin_code := ierr e (Call.MatAssemblyBegin global_mat MAT_FINAL_ASSEMBLY) in
  let end_code := ierr e (Call.MatAssemblyEnd global_mat MAT_FINAL_ASSEMBLY) in
  if begin_code =? 0 then
    if end_code =? 0 then
      (0, {| petsc := p'; clock := clock_readings e c0 12 6;
             trace := (trace s ++ pipeline e c0 (ksp_converged_reason e) arr)%list |})
    else
      (end_code, {| petsc := p'; clock := clock_readings e c0 6 3;
                    trace := (trace s ++ stage_create e ++ stage_assemble e c0
                              ++ stage_finalize_begin e ++ stage_finalize_end e)%list |})
  else
    (begin_code, {| petsc := p'; clock := clock_readings e c0 6 3;
                    trace := (trace s ++ stage_create e ++ stage_assemble e c0
                              ++ stage_finalize_begin e)%list |}).

(** The solver as the compiled-in calls and the options leave it: the type
    and the tolerance are the compiled-in ones unless an option replaces
    them; the preconditioner is set after the options were read. *)
Definition configured {scalar} (e : Env (scalar := scalar)) : KSPConfig :=
  {| ksp_type := Some (default KSPCG (opt_ksp_type (options e)));
     ksp_rtol := default tol_1E_8 (opt_ksp_rtol (options e));
     pc_type := Some PCGAMG;
     pc_gamg_type := Some PCGAMGAGG;
     pc_gamg_nsmooths := Some 1 |}.

(** The local dense array after the scatter. *)
Definition scattered {scalar} (zero : scalar) (e : Env (scalar := scalar)) : list scalar :=
  let n := Z.to_nat (num_local_DOFs_on_this_rank e) in
  scatter_unpack (take n (scatter_to e))
                 (scatter_pack (ksp_solution e) (take n (scatter_from e)))
                 (replicate n zero).

(** The PETSc objects after an invocation in which every call succeeded. *)
Definition Solve_objects {scalar} (zero : scalar) (e : Env (scalar := scalar))
           (p : Petsc_state (scalar := scalar)) : Petsc_state (scalar := scalar) :=
  let n := Z.to_nat (num_local_DOFs_on_this_rank e) in
  {| live :=
       ({[VecScatter_scatter]} ∪ ({[IS_to]} ∪ ({[IS_from]} ∪ ({[Vec_x]} ∪
          ({[TheSolver]} ∪ ({[exact_solution]} ∪ ({[solution_vec]} ∪
             ({[RHS_vec]} ∪ ({[global_mat]} ∪ live p)))))))))
         ∖ {[global_mat]} ∖ {[RHS_vec]} ∖ {[exact_solution]} ∖ {[solution_vec]}
         ∖ {[Vec_x]};
     mat_spd := true;
     solver := configured e;
     solved_with := Some (configured e);
     solution_vec_data := ksp_solution e;
     x_data := scattered zero e;
     from_idx := take n (scatter_from e);
     to_idx := take n (scatter_to e);
     scatter_ctx := Some (take n (scatter_from e), take n (scatter_to e));
     scatter_in_flight := None |}.

(** ** The outer loop, as the steps it is to take *)

Inductive Step :=
| Constructed (degree : Z)
| Setup (level : Z)
| Solve
| Visualize.

Definition step_of {scalar} (ev : MainEvent (scalar := scalar)) : option Step :=
  match ev with
  | Construct_Diffusion p1 _ _ _ _ => Some (Constructed p1)
  | Call_Setup_System h1 _ => Some (Setup h1)
  | Call_Solve_Linear_Systam _ _ => Some Solve
  | Call_vtk_visualizer => Some Visualize
  | _ => None
  end.

Definition steps {scalar} (t : list (MainEvent (scalar := scalar))) : list Step :=
  omap step_of t.

(** One solver instance per degree of [[p_1, p_2)], and for each level of
    [[h_1, h_2)] Setup, Solve, Visualize. *)
Definition outer_loop_spec (p_1 p_2 h_1 h_2 : Z) : list Step :=
  flat_map (fun p => Constructed p
                     :: flat_map (fun h => [Setup h; Solve; Visualize])
                                 (seqZ h_1 (h_2 - h_1)))
           (seqZ p_1 (p_2 - p_1)).

(** The bounds of the two ranges as [main] reads them. *)
Definition p_1_read {scalar} (env : MainEnv (scalar := scalar)) : Z :=
  fst (PetscOptionsGetInt (opt_p_0 (main_options env)) (p_1_uninitialised env)).
Definition p_2_read {scalar} (env : MainEnv (scalar := scalar)) : Z :=
  fst (PetscOptionsGetInt (opt_p_n (main_options env)) (p_2_uninitialised env)).
Definition h_1_read {scalar} (env : MainEnv (scalar := scalar)) : Z :=
  fst (PetscOptionsGetInt (opt_h_0 (main_options env)) (h_1_uninitialised env)).
Definition h_2_read {scalar} (env : MainEnv (scalar := scalar)) : Z :=
  fst (PetscOptionsGetInt (opt_h_n (main_options env)) (h_2_uninitialised env)).

(** A non-negative value of a 32-bit [int]. *)
Definition nonneg_int (z : Z) : Prop := 0 <= z < 2 ^ 31.

(** The same run with another [-face_basis] option (or none). *)
Definition options_with_face_basis (v : option string) (o : PetscOptions) : PetscOptions :=
  {| opt_p_0 := opt_p_0 o; opt_p_n := opt_p_n o; opt_h_0 := opt_h_0 o;
     opt_h_n := opt_h_n o; opt_amr := opt_amr o; opt_face_basis := v;
     opt_ksp_type := opt_ksp_type o; opt_ksp_rtol := opt_ksp_rtol o;
     opt_pc_type := opt_pc_type o |}.

Definition with_face_basis {scalar} (v : option string) (env : MainEnv (scalar := scalar))
  : MainEnv (scalar := scalar) :=
  {| rank := rank env; size := size env;
     main_options := options_with_face_basis v (main_options env);
     OPENMP_max_threads := OPENMP_max_threads env;
     p_1_uninitialised := p_1_uninitialised env;
     p_2_uninitialised := p_2_uninitialised env;
     h_1_uninitialised := h_1_uninitialised env;
     h_2_uninitialised := h_2_uninitialised env;
     at_Setup_System := at_Setup_System env;
     at_Solve_Linear_Systam := at_Solve_Linear_Systam env |}.

(** What [main] prints and does before it reads the options. *)
Definition prologue {scalar} (env : MainEnv (scalar := scalar))
  : list (MainEvent (scalar := scalar)) :=
  SlepcInitialize
    :: (if rank env =? 0
        then [Main_cout (help_line ++ endl)%string;
              Truncate_file "Convergence_Result.txt";
              Truncate_file "Execution_Time.txt"]
        else []).

Definition threads_line {scalar} (env : MainEnv (scalar := scalar)) : string :=
  ("There are "
   ++ string_of_Z (match OPENMP_max_threads env with Some n => n | None => 1 end)
   ++ " threads available." ++ endl)%string.

(** The report of an unrecognised face-basis name: rank 0 only, and nothing
    for the two names that are recognised. *)
Definition face_basis_report {scalar} (env : MainEnv (scalar := scalar)) (v : string)
  : list (MainEvent (scalar := scalar)) :=
  if bool_decide (v = "legendre" \/ v = "lagrange") then []
  else if rank env =? 0
       then [Main_cout face_basis_message; Main_cout (threads_line env ++ endl)%string]
       else [].

(** [t] put in front of the trace of a state. *)
Definition prefixed {scalar} (t : list (MainEvent (scalar := scalar))) (s : MainState)
  : MainState :=
  {| world := world s; time := time s; main_trace := (t ++ main_trace s)%list |}.

(** The two loops of [main], started on an empty trace. *)
Definition main_loops {scalar} (zero : scalar) (fuel : nat)
           (env : MainEnv (scalar := scalar)) : option (MainState (scalar := scalar)) :=
  for_unsigned fuel (to_unsigned (p_1_read env)) (to_unsigned (p_2_read env))
               (degree_body zero fuel env
                  (match OPENMP_max_threads env with Some n => n | None => 1 end)
                  (fst (PetscOptionsGetInt (opt_amr (main_options env)) 0))
                  (h_1_read env) (h_2_read env))
               {| world := no_objects; time := O; main_trace := [] |}.

(** The report [main] makes of the [-face_basis] option, if any. *)
Definition face_basis_reported {scalar} (env : MainEnv (scalar := scalar))
  : list (MainEvent (scalar := scalar)) :=
  match opt_face_basis (main_options env) with
  | Some v => face_basis_report env v
  | None => []
  end.

(** ** Sample invocations *)

(** An invocation on two ranks with four global and three local unknowns;
    the entries of the vectors are integers. *)
Definition sample_env (rank_ : Z) (codes : PetscCall -> PetscErrorCode)
           (o : PetscOptions) : Env (scalar := Z) :=
  {| comm_rank := rank_; comm_size := 2;
     refn_cycle := 0; refn_cycle_refined := 1; refn_cycle_counted := 1;
     num_global_DOFs_on_this_rank := 2; num_global_DOFs_on_all_ranks := 4;
     num_local_DOFs_on_this_rank := 3;
     n_local_DOFs_connected_to_DOF := [1; 1];
     n_nonlocal_DOFs_connected_to_DOF := [0; 0];
     scatter_from := [3; 0; 2]; scatter_to := [1; 2; 0];
     options := o; ierr := codes;
     ksp_solution := [10; 11; 12; 13];
     ksp_iterations := 7; ksp_converged_reason := 2;
     date_time := fun _ => "2015-10-01.12:00:00";
     wall_clock := fun k => Z.of_nat k;
     show_elapsed := fun t0 t1 => string_of_Z (t1 - t0) |}.

Definition all_succeed : PetscCall -> PetscErrorCode := fun _ => 0.

(** [MatCreate] fails with [PETSC_ERR_MEM] (55); every other call succeeds. *)
Definition MatCreate_fails : PetscCall -> PetscErrorCode :=
  fun c => match c with
           | Call.MatCreate _ => 55
           | _ => 0
           end.

(** [MatAssemblyBegin] fails with [PETSC_ERR_ARG_OUTOFRANGE] (63); every
    other call succeeds. *)
Definition MatAssemblyBegin_fails : PetscCall -> PetscErrorCode :=
  fun c => match c with
           | Call.MatAssemblyBegin _ _ => 63
           | _ => 0
           end.

(** [-ksp_type gmres -pc_type hypre]. *)
Definition gmres_hypre : PetscOptions :=
  {| opt_p_0 := None; opt_p_n := None; opt_h_0 := None; opt_h_n := None;
     opt_amr := None; opt_face_basis := None;
     opt_ksp_type := Some "gmres"; opt_ksp_rtol := None; opt_pc_type := Some "hypre" |}.

(** [-p_0 1 -p_n 3 -h_0 0 -h_n 2 -amr 0], with or without [-face_basis]. *)
Definition sample_options (face_basis : option string) : PetscOptions :=
  {| opt_p_0 := Some 1; opt_p_n := Some 3; opt_h_0 := Some 0; opt_h_n := Some 2;
     opt_amr := Some 0; opt_face_basis := face_basis;
     opt_ksp_type := None; opt_ksp_rtol := None; opt_pc_type := None |}.

(** The sample run in which every assembly fails: each
    [Solve_Linear_Systam] returns at line 137. *)
Definition failing_main_env : MainEnv (scalar := Z) :=
  {| rank := 1; size := 2; main_options := sample_options None;
     OPENMP_max_threads := None;
     p_1_uninitialised := 0; p_2_uninitialised := 0;
     h_1_uninitialised := 0; h_2_uninitialised := 0;
     at_Setup_System := fun _ _ => sample_env 1 all_succeed (sample_options None);
     at_Solve_Linear_Systam :=
       fun _ _ => sample_env 1 MatAssemblyBegin_fails (sample_options None) |}.

Definition sample_main_env (rank_ : Z) (face_basis : option string)
  : MainEnv (scalar := Z) :=
  {| rank := rank_; size := 2; main_options := sample_options face_basis;
     OPENMP_max_threads := None;
     p_1_uninitialised := 0; p_2_uninitialised := 0;
     h_1_uninitialised := 0; h_2_uninitialised := 0;
     at_Setup_System := fun _ _ => sample_env rank_ all_succeed (sample_options face_basis);
     at_Solve_Linear_Systam :=
       fun _ _ => sample_env rank_ all_succeed (sample_options face_basis) |}.

(** ** What [Tokenize] and [parse_my_options] are to produce *)

Definition chars (s : string) : list ascii := list_ascii_of_string s.

(** The tokens of an input for a set [d] of delimiters: the maximal runs of
    characters that are not delimiters, in order. *)
Inductive tokens_of (d : list ascii) : list ascii -> list (list ascii) -> Prop :=
| tokens_of_done ds :
    Forall (fun c => c ∈ d) ds -> tokens_of d ds []
| tokens_of_token ds t rest toks :
    Forall (fun c => c ∈ d) ds ->
    t <> [] -> Forall (fun c => c ∉ d) t ->
    (forall c, head rest = Some c -> c ∈ d) ->
    tokens_of d rest toks ->
    tokens_of d (ds ++ t ++ rest) (t :: toks).

(** Tokens joined by one delimiter. *)
Fixpoint join (c : ascii) (toks : list (list ascii)) : list ascii :=
  match toks with
  | [] => []
  | [t] => t
  | t :: toks' => t ++ c :: join c toks'
  end.

(** The answers of [getopt_long_only] the loop gets to see: those before
    the first [-1]. *)
Fixpoint before_the_end (answers : list (Z * string)) : list (Z * string) :=
  match answers with
  | [] => []
  | (opt, optarg) :: answers' =>
      if opt =? -1 then [] else (opt, optarg) :: before_the_end answers'
  end.

(** The argument of the last answer with code [opt], if there is one. *)
Definition last_given (opt : Z) (answers : list (Z * string)) : option string :=
  last (omap (fun a => if fst a =? opt then Some (snd a) else None)
             (before_the_end answers)).

(** Whether some answer has code [opt]. *)
Definition is_given (opt : Z) (answers : list (Z * string)) : bool :=
  existsb (fun a => fst a =? opt) (before_the_end answers).

(** The value of an [unsigned] variable after the loop: the number in the
    last argument given for it, or the value it had. *)
Definition given_or (atoi : string -> Z) (opt : Z) (answers : list (Z * string))
           (old : Z) : Z :=
  match last_given opt answers with
  | Some optarg => to_unsigned (atoi optarg)
  | None => old
  end.

(** The five codes the [switch] has a case for. *)
Definition recognised (opt : Z) : bool :=
  (opt =? 97) || (opt =? 112) || (opt =? 113) || (opt =? 104) || (opt =? 108).

(** ** Readings of the traces *)

(** The PETSc calls of a trace, with the codes they returned. *)
Definition petsc_calls {scalar} (t : list (Event (scalar := scalar)))
  : list (PetscCall * PetscErrorCode) :=
  omap (fun ev => match ev with Petsc c code => Some (c, code) | _ => None end) t.

(** The same invocation on another rank. *)
Definition with_rank {scalar} (r : Z) (e : Env (scalar := scalar)) : Env :=
  {| comm_rank := r; comm_size := comm_size e;
     refn_cycle := refn_cycle e; refn_cycle_refined := refn_cycle_refined e;
     refn_cycle_counted := refn_cycle_counted e;
     num_global_DOFs_on_this_rank := num_global_DOFs_on_this_rank e;
     num_global_DOFs_on_all_ranks := num_global_DOFs_on_all_ranks e;
     num_local_DOFs_on_this_rank := num_local_DOFs_on_this_rank e;
     n_local_DOFs_connected_to_DOF := n_local_DOFs_connected_to_DOF e;
     n_nonlocal_DOFs_connected_to_DOF := n_nonlocal_DOFs_connected_to_DOF e;
     scatter_from := scatter_from e; scatter_to := scatter_to e;
     options := options e; ierr := ierr e; ksp_solution := ksp_solution e;
     ksp_iterations := ksp_iterations e;
     ksp_converged_reason := ksp_converged_reason e;
     date_time := date_time e; wall_clock := wall_clock e;
     show_elapsed := show_elapsed e |}.

(** The events other than output. *)
Definition non_writes {scalar} (t : list (Event (scalar := scalar))) : list Event :=
  List.filter (fun ev => negb (is_write ev)) t.

(** The lines of the execution-time log an invocation that passes the
    assembly checks writes on rank 0, the clock having been read [c0] times
    before. *)
Definition log_of_success {scalar} (e : Env (scalar := scalar)) (c0 : nat)
  : list (Event (scalar := scalar)) :=
  [Write Execution_Time ("Entering assembly : " ++ date_time e (0 + c0) ++ endl)%string;
   Write Execution_Time ("Has finished assembly : " ++ date_time e (3 + c0) ++ endl)%string;
   Write Execution_Time ("Entering solver : " ++ date_time e (4 + c0) ++ endl)%string;
   Write Execution_Time
         ("Converged reason is: " ++ string_of_Z (ksp_converged_reason e) ++ endl)%string;
   Write Execution_Time
         ("Number of iterations is: " ++ string_of_Z (ksp_iterations e) ++ endl)%string;
   Write Execution_Time ("Finished solver : " ++ date_time e (6 + c0) ++ endl)%string;
   Write Execution_Time ("Entering local solver : " ++ date_time e (8 + c0) ++ endl)%string;
   Write Execution_Time ("Finished local solver : " ++ date_time e (11 + c0) ++ endl)%string].

Definition is_Assemble_Globals {scalar} (ev : Event (scalar := scalar)) : bool :=
  match ev with
  | Assemble_Globals => true
  | _ => false
  end.

Definition is_KSPSolve {scalar} (ev : Event (scalar := scalar)) : bool :=
  match ev with
  | Petsc (Call.KSPSolve _ _ _) _ => true
  | _ => false
  end.

Definition is_Calculate_Internal_Unknowns {scalar} (ev : Event (scalar := scalar)) : bool :=
  match ev with
  | Calculate_Internal_Unknowns _ => true
  | _ => false
  end.

Definition is_Destroy {scalar} (ev : Event (scalar := scalar)) : bool :=
  match ev with
  | Petsc (Call.MatDestroy _) _ | Petsc (Call.VecDestroy _) _ => true
  | _ => false
  end.

(** Both checked calls returned [0]. *)
Definition assembly_passed {scalar} (e : Env (scalar := scalar)) : bool :=
  (ierr e (Call.MatAssemblyBegin global_mat MAT_FINAL_ASSEMBLY) =? 0)
  && (ierr e (Call.MatAssemblyEnd global_mat MAT_FINAL_ASSEMBLY) =? 0).

(** What [main] itself prints or truncates. *)
Definition is_main_output {scalar} (ev : MainEvent (scalar := scalar)) : bool :=
  match ev with
  | Main_cout _ | Truncate_file _ => true
  | _ => false
  end.

Definition main_outputs {scalar} (t : list (MainEvent (scalar := scalar)))
  : list MainEvent :=
  List.filter is_main_output t.

Definition same_outputs {scalar} (s s' : MainState (scalar := scalar)) : Prop :=
  main_outputs (main_trace s') = main_outputs (main_trace s).

(** The life of the solver objects: a construction or a destruction. *)
Inductive Life := Born (degree : Z) | Died.

Definition life_of {scalar} (ev : MainEvent (scalar := scalar)) : option Life :=
  match ev with
  | Construct_Diffusion p1 _ _ _ _ => Some (Born p1)
  | Destruct_Diffusion => Some Died
  | _ => None
  end.

Definition lives {scalar} (t : list (MainEvent (scalar := scalar))) : list Life :=
  omap life_of t.

(** The calls that set up, configure or run the Krylov solver and its
    preconditioner. *)
Definition is_solver_call {scalar} (ev : Event (scalar := scalar)) : bool :=
  match ev with
  | Petsc (Call.KSPCreate _) _
  | Petsc (Call.KSPSetTolerances _ _ _ _ _) _
  | Petsc (Call.KSPSetOperators _ _ _) _
  | Petsc (Call.KSPSetType _ _) _
  | Petsc (Call.KSPSetFromOptions _) _
  | Petsc (Call.KSPGetPC _ _) _
  | Petsc (Call.PCSetFromOptions _) _
  | Petsc (Call.PCSetType _ _) _
  | Petsc (Call.PCGAMGSetType _ _) _
  | Petsc (Call.PCGAMGSetNSmooths _ _) _
  | Petsc (Call.KSPSolve _ _ _) _ => true
  | _ => false
  end.

(** ** Further sample inputs *)

(** [-ksp_type gmres -ksp_rtol 1e-3]. *)
Definition gmres_1E_3 : PetscOptions :=
  {| opt_p_0 := None; opt_p_n := None; opt_h_0 := None; opt_h_n := None;
     opt_amr := None; opt_face_basis := None;
     opt_ksp_type := Some "gmres"; opt_ksp_rtol := Some (1 # 1000)%Q;
     opt_pc_type := None |}.

(** [-p_0 -1 -p_n 2 -h_0 0 -h_n 2 -amr 0]: a negative starting degree. *)
Definition negative_degree_options : PetscOptions :=
  {| opt_p_0 := Some (-1); opt_p_n := Some 2; opt_h_0 := Some 0; opt_h_n := Some 2;
     opt_amr := Some 0; opt_face_basis := None;
     opt_ksp_type := None; opt_ksp_rtol := None; opt_pc_type := None |}.

Definition negative_degree_main_env : MainEnv (scalar := Z) :=
  {| rank := 0; size := 2; main_options := negative_degree_options;
     OPENMP_max_threads := None;
     p_1_uninitialised := 0; p_2_uninitialised := 0;
     h_1_uninitialised := 0; h_2_uninitialised := 0;
     at_Setup_System := fun _ _ => sample_env 0 all_succeed negative_degree_options;
     at_Solve_Linear_Systam :=
       fun _ _ => sample_env 0 all_succeed negative_degree_options |}.

(** [VecGetArray] fails with [PETSC_ERR_ARG_WRONGSTATE] (73); every other
    call succeeds. *)
Definition VecGetArray_fails : PetscCall -> PetscErrorCode :=
  fun c => match c with
           | Call.VecGetArray _ => 73
           | _ => 0
           end.

(** [-p_0 3 -p_n 1 -h_0 0 -h_n 2 -amr 0]: the range of degrees is
    inverted. *)
Definition inverted_options : PetscOptions :=
  {| opt_p_0 := Some 3; opt_p_n := Some 1; opt_h_0 := Some 0; opt_h_n := Some 2;
     opt_amr := Some 0; opt_face_basis := None;
     opt_ksp_type := None; opt_ksp_rtol := None; opt_pc_type := None |}.

Definition inverted_main_env : MainEnv (scalar := Z) :=
  {| rank := 0; size := 2; main_options := inverted_options;
     OPENMP_max_threads := None;
     p_1_uninitialised := 0; p_2_uninitialised := 0;
     h_1_uninitialised := 0; h_2_uninitialised := 0;
     at_Setup_System := fun _ _ => sample_env 0 all_succeed inverted_options;
     at_Solve_Linear_Systam := fun _ _ => sample_env 0 all_succeed inverted_options |}.

(** A line of options and the delimiters it is cut at. *)
Definition sample_line : list ascii := chars "  -p_0 1,-p_n  3 ".
Definition sample_delimiters : list ascii := chars " ,".

(** ** Weakest preconditions for the monad of the driver *)

Definition wp {scalar B} (m : M B) (Q : Outcome B -> State (scalar := scalar) -> Prop)
           (s : State) : Prop :=
  Q (fst (m s)) (snd (m s)).

(** * Proofs *)

Section WP.
Context {scalar : Type}.
Variable e : Env (scalar := scalar).

Lemma wp_ret {B} (b : B) Q (s : State (scalar := scalar)) :
  Q (Normal b) s -> wp (mret b) Q s.
Proof. intros H. exact H. Qed.

Lemma wp_ret_bind {B C} (b : B) (k : B -> M C) Q (s : State (scalar := scalar)) :
  wp (k b) Q s -> wp (mret b ≫= k) Q s.
Proof. intros H. exact H. Qed.

Lemma wp_assoc {B C D} (m : M B) (k1 : B -> M C) (k2 : C -> M D) Q
      (s : State (scalar := scalar)) :
  wp (m ≫= (fun b => k1 b ≫= k2)) Q s -> wp ((m ≫= k1) ≫= k2) Q s.
Proof.
  unfold wp, mbind, M_bind. destruct (m s) as [[b|code] s']; [|exact id].
  destruct (k1 b s') as [[c|code] s'']; exact id.
Qed.

(** A property of what a function returns and leaves follows from the
    weakest precondition of its body, whichever way the body was left. *)
Lemma wp_call_function (body : M PetscErrorCode)
      (P : PetscErrorCode * State (scalar := scalar) -> Prop) s :
  wp body (fun o s' => P (match o with Normal c => c | Returned c => c end, s')) s ->
  P (call_function body s).
Proof.
  unfold wp, call_function. destruct (body s) as [[c|c] s']; exact id.
Qed.

(** A call whose effect on the PETSc objects is of no interest: any state
    of the objects may follow. *)
Lemma wp_call {C} c effect (k : PetscErrorCode -> M C) Q s :
  (forall p', wp (k (ierr e c)) Q
                 {| petsc := p'; clock := clock s;
                    trace := (trace s ++ [Petsc c (ierr e c)])%list |}) ->
  wp (petsc_call e c effect ≫= k) Q s.
Proof.
  intros H. unfold wp, mbind, M_bind, petsc_call. cbn.
  destruct (ierr e c =? 0); apply H.
Qed.

(** A call that succeeds: its effect takes place. *)
Lemma wp_call_ok {C} c effect (k : PetscErrorCode -> M C) Q s :
  ierr e c = 0 ->
  wp (k 0) Q {| petsc := effect (petsc s); clock := clock s;
                trace := (trace s ++ [Petsc c 0])%list |} ->
  wp (petsc_call e c effect ≫= k) Q s.
Proof.
  intros Hc H. unfold wp, mbind, M_bind, petsc_call. rewrite Hc. exact H.
Qed.

(** A call that fails: the objects are left as they were. *)
Lemma wp_call_failed {C} c effect (k : PetscErrorCode -> M C) Q s :
  ierr e c <> 0 ->
  wp (k (ierr e c)) Q {| petsc := petsc s; clock := clock s;
                         trace := (trace s ++ [Petsc c (ierr e c)])%list |} ->
  wp (petsc_call e c effect ≫= k) Q s.
Proof.
  intros Hc H. unfold wp, mbind, M_bind, petsc_call.
  apply Z.eqb_neq in Hc. rewrite Hc. destruct s. exact H.
Qed.

Lemma wp_CHKERRQ {C} code (k : unit -> M C) Q (s : State (scalar := scalar)) :
  (code = 0 -> wp (k tt) Q s) ->
  (code <> 0 -> Q (Returned code) s) ->
  wp (CHKERRQ code ≫= k) Q s.
Proof.
  intros H0 H1. unfold wp, mbind, M_bind, CHKERRQ in *.
  destruct (Z.eqb_spec code 0); [apply H0 | apply H1]; assumption.
Qed.

Lemma wp_emit {C} ev (k : unit -> M C) Q (s : State (scalar := scalar)) :
  wp (k tt) Q {| petsc := petsc s; clock := clock s;
                 trace := (trace s ++ [ev])%list |} ->
  wp (emit ev ≫= k) Q s.
Proof. intros H. exact H. Qed.

Lemma wp_emit_last ev Q (s : State (scalar := scalar)) :
  Q (Normal tt) {| petsc := petsc s; clock := clock s;
                   trace := (trace s ++ [ev])%list |} ->
  wp (emit ev) Q s.
Proof. intros H. exact H. Qed.

Lemma wp_MPI_Wtime {C} (k : scalar -> M C) Q s :
  wp (k (wall_clock e (clock s))) Q
     {| petsc := petsc s; clock := S (clock s); trace := trace s |} ->
  wp (MPI_Wtime e ≫= k) Q s.
Proof. intros H. exact H. Qed.

Lemma wp_currentDateTime {C} (k : string -> M C) Q s :
  wp (k (date_time e (clock s))) Q
     {| petsc := petsc s; clock := S (clock s); trace := trace s |} ->
  wp (currentDateTime e ≫= k) Q s.
Proof. intros H. exact H. Qed.

(** The pointer handed out by [VecGetArray], whatever it is. *)
Lemma wp_VecGetArray {C} v (k : option (list scalar) -> M C) Q s :
  (forall arr, wp (k arr) Q
                  {| petsc := petsc s; clock := clock s;
                     trace := (trace s ++ [Petsc (Call.VecGetArray v)
                                                 (ierr e (Call.VecGetArray v))])%list |}) ->
  wp (VecGetArray e v ≫= k) Q s.
Proof. intros H. apply H. Qed.

Lemma wp_VecGetArray_ok {C} v (k : option (list scalar) -> M C) Q s :
  ierr e (Call.VecGetArray v) = 0 ->
  wp (k (Some (x_data (petsc s)))) Q
     {| petsc := petsc s; clock := clock s;
        trace := (trace s ++ [Petsc (Call.VecGetArray v) 0])%list |} ->
  wp (VecGetArray e v ≫= k) Q s.
Proof.
  intros Hc H. unfold wp, mbind, M_bind, VecGetArray. rewrite Hc. exact H.
Qed.
End WP.

(** The PETSc operations, unfolded to [petsc_call]. *)
Ltac unfold_calls :=
  unfold MatCreate, MatSetType, MatSetSizes, MatMPIAIJSetPreallocation,
    MatGetOwnershipRange, MatSetOption, VecCreateMPI, VecSetOption, VecDuplicate,
    MatAssemblyBegin, MatAssemblyEnd, VecAssemblyBegin, VecAssemblyEnd, VecNorm,
    KSPCreate, KSPSetTolerances, KSPSetOperators, KSPSetType, KSPSetFromOptions,
    KSPGetPC, PCSetFromOptions, PCSetType, PCGAMGSetType, PCGAMGSetNSmooths,
    KSPSolve, KSPGetIterationNumber, KSPGetConvergedReason, VecAXPY, VecCreateSeq,
    ISCreateGeneral, VecScatterCreate, VecScatterBegin, VecScatterEnd,
    MatDestroy, VecDestroy, put.

(** One statement of the body that is not a PETSc call. *)
Ltac wp_plain :=
  lazymatch goal with
  | |- wp (mbind _ (mbind _ _)) _ _ => apply wp_assoc
  | |- wp (mbind _ (mret _)) _ _ => apply wp_ret_bind
  | |- wp (mbind _ (emit _)) _ _ => apply wp_emit
  | |- wp (mbind _ (MPI_Wtime _)) _ _ => apply wp_MPI_Wtime
  | |- wp (mbind _ (currentDateTime _)) _ _ => apply wp_currentDateTime
  | |- wp (mret _) _ _ => apply wp_ret
  | |- wp (emit _) _ _ => apply wp_emit_last
  end; cbn [petsc clock trace].

(** One statement of the body, the state of the PETSc objects forgotten. *)
Ltac wp_step :=
  first
    [ wp_plain
    | lazymatch goal with
      | |- wp (mbind _ (petsc_call _ _ _)) _ _ => apply wp_call; intros ?p
      | |- wp (mbind _ (VecGetArray _ _)) _ _ => apply wp_VecGetArray; intros ?arr
      end; cbn [petsc clock trace] ].

(** One statement of the body when every PETSc call succeeds: the state of
    the objects is followed. *)
Ltac wp_step_ok Hok :=
  first
    [ wp_plain
    | lazymatch goal with
      | |- wp (mbind _ (petsc_call _ _ _)) _ _ => apply wp_call_ok; [apply Hok|]
      | |- wp (mbind _ (CHKERRQ _)) _ _ =>
          apply wp_CHKERRQ; [intros _ | intros Hne; exfalso; apply Hne; reflexivity]
      | |- wp (mbind _ (VecGetArray _ _)) _ _ => apply wp_VecGetArray_ok; [apply Hok|]
      end; cbn [petsc clock trace] ].

(** The effects of the calls on the PETSc objects, carried out. *)
Ltac petsc_effects :=
  cbv beta iota zeta delta
      [destroy create set_live set_mat_spd set_ksp set_solved set_x_data
       set_from_idx set_to_idx set_scatter_ctx set_in_flight no_effect
       live mat_spd solver solved_with solution_vec_data x_data from_idx to_idx
       scatter_ctx scatter_in_flight].

(** Traces are compared with the appends associated to the right. *)
Ltac norm_trace := rewrite <- ?app_assoc; cbn [app Nat.add].

(** ** What an invocation of [Solve_Linear_Systam] does *)

Section Solve.
Context {scalar : Type}.
Variable zero : scalar.

(** The control flow of the function, for every answer of PETSc: the
    codes of [MatAssemblyBegin] and [MatAssemblyEnd] alone decide how far
    it runs and what it returns. *)
Lemma Solve_Linear_Systam_runs (e : Env (scalar := scalar)) (s : State) :
  exists p' arr,
    call_function (Solve_Linear_Systam zero e) s = Solve_outcome e s p' arr.
Proof.
  apply wp_call_function.
  unfold Solve_outcome, pipeline, Solve_Linear_Systam, when, clock_readings,
    stage_create, stage_assemble, stage_finalize_begin, stage_finalize_end, stage_finalize_vectors,
    stage_configure, stage_solve, stage_record, stage_scatter,
    stage_post_solve, stage_destroy, milestone, called.
  unfold_calls.
  destruct (comm_rank e =? 0) eqn:Hr.
  - repeat wp_step.
    apply wp_CHKERRQ; intros Hb.
    + repeat wp_step.
      apply wp_CHKERRQ; intros He.
      * repeat wp_step. rewrite Hb, He. eexists _, _. cbn [Z.eqb]. norm_trace.
        reflexivity.
      * apply Z.eqb_neq in He. rewrite Hb, He. eexists _, None. cbn [Z.eqb].
        norm_trace. reflexivity.
    + apply Z.eqb_neq in Hb. rewrite Hb. eexists _, None. norm_trace. reflexivity.
  - repeat wp_step.
    apply wp_CHKERRQ; intros Hb.
    + repeat wp_step.
      apply wp_CHKERRQ; intros He.
      * repeat wp_step. rewrite Hb, He. eexists _, _. cbn [Z.eqb]. norm_trace.
        reflexivity.
      * apply Z.eqb_neq in He. rewrite Hb, He. eexists _, None. cbn [Z.eqb].
        norm_trace. reflexivity.
    + apply Z.eqb_neq in Hb. rewrite Hb. eexists _, None. norm_trace. reflexivity.
Qed.

Lemma configured_spec (e : Env (scalar := scalar)) :
  with_pc_gamg_nsmooths 1
    (with_pc_gamg_type PCGAMGAGG
       (with_pc_type PCGAMG
          (PC_from_options e
             (PC_from_options e
                (from_option (opt_ksp_rtol (options e)) with_ksp_rtol
                   (from_option (opt_ksp_type (options e)) with_ksp_type
                      (with_ksp_type KSPCG
                         (with_ksp_rtol tol_1E_8 KSP_defaults))))))))
  = configured e.
Proof.
  unfold configured, PC_from_options.
  destruct (opt_pc_type (options e)), (opt_ksp_rtol (options e)),
    (opt_ksp_type (options e)); reflexivity.
Qed.


(** An invocation in which every PETSc call succeeds: the objects too are
    known. *)
Lemma Solve_Linear_Systam_ok (e : Env (scalar := scalar)) (s : State) :
  petsc_ok e ->
  call_function (Solve_Linear_Systam zero e) s
  = (0, {| petsc := Solve_objects zero e (petsc s);
           clock := clock_readings e (clock s) 12 6;
           trace := (trace s ++ pipeline e (clock s) (ksp_converged_reason e)
                                         (Some (scattered zero e)))%list |}).
Proof.
  intros Hok.
  apply wp_call_function
    with (P := fun r =>
                 r = (0, {| petsc := Solve_objects zero e (petsc s);
                            clock := clock_readings e (clock s) 12 6;
                            trace := (trace s ++ pipeline e (clock s)
                                                    (ksp_converged_reason e)
                                                    (Some (scattered zero e)))%list |})).
  unfold pipeline, Solve_Linear_Systam, when, clock_readings, stage_create,
    stage_assemble, stage_finalize_begin, stage_finalize_end, stage_finalize_vectors,
    stage_configure, stage_solve, stage_record, stage_scatter,
    stage_post_solve, stage_destroy, milestone, called.
  rewrite !Hok.
  unfold_calls.
  change (Qeq_bool tol_1E_8 PETSC_DEFAULT_REAL) with false.
  destruct (comm_rank e =? 0) eqn:Hr.
  - repeat (wp_step_ok Hok; petsc_effects). norm_trace.
    unfold Solve_objects, scattered. rewrite <- configured_spec. reflexivity.
  - repeat (wp_step_ok Hok; petsc_effects). norm_trace.
    unfold Solve_objects, scattered. rewrite <- configured_spec. reflexivity.
Qed.
End Solve.

(** ** The scatter, entry by entry *)

Section ScatterLemmas.
Context {A : Type}.
Implicit Types (v y : list A) (ix iy : list PetscInt).

Lemma vec_set_length v i a : length (vec_set v i a) = length v.
Proof. unfold vec_set. destruct (0 <=? i); [apply length_insert | reflexivity]. Qed.

Lemma vec_get_set_eq v i a :
  0 <= i < Z.of_nat (length v) -> vec_get (vec_set v i a) i = Some a.
Proof.
  intros [H0 H1]. unfold vec_get, vec_set.
  rewrite (proj2 (Z.leb_le 0 i) H0). apply list_lookup_insert_eq. lia.
Qed.

Lemma vec_get_set_ne v i j a :
  i <> j -> vec_get (vec_set v i a) j = vec_get v j.
Proof.
  intros Hne. unfold vec_get, vec_set.
  destruct (Z.leb_spec 0 j) as [Hj|Hj]; [|reflexivity].
  destruct (Z.leb_spec 0 i) as [Hi|Hi]; [|reflexivity].
  apply list_lookup_insert_ne. lia.
Qed.

Lemma vec_get_Some v i :
  0 <= i < Z.of_nat (length v) -> exists a, vec_get v i = Some a.
Proof.
  intros [H0 H1]. unfold vec_get. rewrite (proj2 (Z.leb_le 0 i) H0).
  apply lookup_lt_is_Some. lia.
Qed.

Lemma scatter_unpack_length iy vals y :
  length (scatter_unpack iy vals y) = length y.
Proof.
  revert vals y. induction iy as [|j iy IH]; intros vals y; [reflexivity|].
  destruct vals as [|[a|] vals]; cbn; [reflexivity | | apply IH].
  rewrite IH. apply vec_set_length.
Qed.

(** An entry no index of the scatter points at keeps its value. *)
Lemma scatter_unpack_untouched iy vals y t :
  t ∉ iy -> vec_get (scatter_unpack iy vals y) t = vec_get y t.
Proof.
  revert vals y. induction iy as [|j iy IH]; intros vals y Ht; [reflexivity|].
  apply not_elem_of_cons in Ht as [Hne Ht].
  destruct vals as [|[a|] vals]; cbn; [reflexivity | | by apply IH].
  rewrite IH by assumption. apply vec_get_set_ne. congruence.
Qed.

(** With target indices that are pairwise distinct and inside the target,
    and source indices inside the source, the [i]-th pair of indices moves
    the [i]-th value. *)
Lemma scatter_unpack_pack xin ix iy y i t f :
  NoDup iy ->
  (forall j, j ∈ iy -> 0 <= j < Z.of_nat (length y)) ->
  (forall j, j ∈ ix -> 0 <= j < Z.of_nat (length xin)) ->
  iy !! i = Some t -> ix !! i = Some f ->
  exists a, vec_get xin f = Some a /\
            vec_get (scatter_unpack iy (scatter_pack xin ix) y) t = Some a.
Proof.
  revert ix y i. induction iy as [|j iy IH]; intros ix y i Hnd Hiy Hix Ht Hf.
  - discriminate.
  - destruct ix as [|f0 ix]; [discriminate|].
    apply NoDup_cons in Hnd as [Hj Hnd].
    destruct (vec_get_Some xin f0) as [a0 Ha0]; [apply Hix; left|].
    cbn. rewrite Ha0.
    destruct i as [|i]; cbn in Ht, Hf.
    + injection Ht as <-. injection Hf as <-.
      exists a0. split; [assumption|].
      rewrite scatter_unpack_untouched by assumption.
      apply vec_get_set_eq. apply Hiy. left.
    + apply IH with (i := i); try assumption.
      * intros k Hk. rewrite vec_set_length. apply Hiy. by right.
      * intros k Hk. apply Hix. by right.
Qed.
End ScatterLemmas.

(** ** Properties of [Solve_Linear_Systam] *)

Section SolveProperties.
Context {scalar : Type}.
Variable zero : scalar.
Implicit Types (e : Env (scalar := scalar)) (s : State (scalar := scalar)).

Lemma writes_app (t1 t2 : list (Event (scalar := scalar))) :
  writes (t1 ++ t2) = (writes t1 ++ writes t2)%list.
Proof. apply List.filter_app. Qed.

(** Off rank 0 no stage of the pipeline writes anything. *)
Lemma pipeline_silent e c0 reason arr :
  comm_rank e <> 0 -> writes (pipeline e c0 reason arr) = [].
Proof.
  intros Hr. apply Z.eqb_neq in Hr.
  unfold pipeline, stage_create, stage_assemble, stage_finalize_begin,
    stage_finalize_end, stage_finalize_vectors, stage_configure, stage_solve,
    stage_record, stage_scatter, stage_post_solve, stage_destroy, milestone, called.
  rewrite Hr. reflexivity.
Qed.

Lemma early_return_silent e c0 :
  comm_rank e <> 0 ->
  writes (stage_create e ++ stage_assemble e c0 ++ stage_finalize_begin e
          ++ stage_finalize_end e) = [] /\
  writes (stage_create e ++ stage_assemble e c0 ++ stage_finalize_begin e) = [].
Proof.
  intros Hr. apply Z.eqb_neq in Hr.
  unfold stage_create, stage_assemble, stage_finalize_begin,
    stage_finalize_end, milestone, called.
  rewrite Hr. split; reflexivity.
Qed.

Lemma scattered_length e :
  length (scattered zero e) = Z.to_nat (num_local_DOFs_on_this_rank e).
Proof. unfold scattered. rewrite scatter_unpack_length. apply length_replicate. Qed.

(** C1. On every rank, when every PETSc call succeeds and the scatter index
    pair satisfies the invariant of the data model (both sequences have
    [num_local_DOFs_on_this_rank] entries, the targets are pairwise distinct
    indices of the local array, the sources are indices of the solution
    vector), the invocation runs the whole pipeline and the array [local]
    handed to [Calculate_Internal_Unknowns] has
    [num_local_DOFs_on_this_rank] entries with
    [local[scatter_to[i]] = solution_vec[scatter_from[i]]] for every [i],
    [solution_vec] being what [KSPSolve] left. *)
Theorem C1_scatter_feeds_local_post_solve e s :
  petsc_ok e ->
  length (scatter_from e) = Z.to_nat (num_local_DOFs_on_this_rank e) ->
  length (scatter_to e) = Z.to_nat (num_local_DOFs_on_this_rank e) ->
  NoDup (scatter_to e) ->
  (forall j, j ∈ scatter_to e -> 0 <= j /\ j < num_local_DOFs_on_this_rank e) ->
  (forall j, j ∈ scatter_from e -> 0 <= j /\ j < Z.of_nat (length (ksp_solution e))) ->
  exists local,
    trace (snd (call_function (Solve_Linear_Systam zero e) s))
    = (trace s ++ pipeline e (clock s) (ksp_converged_reason e) (Some local))%list
    /\ solution_vec_data (petsc (snd (call_function (Solve_Linear_Systam zero e) s)))
       = ksp_solution e
    /\ length local = Z.to_nat (num_local_DOFs_on_this_rank e)
    /\ forall i, (i < Z.to_nat (num_local_DOFs_on_this_rank e))%nat ->
         exists t f a,
           scatter_to e !! i = Some t /\ scatter_from e !! i = Some f
           /\ vec_get (ksp_solution e) f = Some a /\ vec_get local t = Some a.
Proof.
  intros Hok Hfrom Hto Hnd Hin_to Hin_from.
  exists (scattered zero e). rewrite Solve_Linear_Systam_ok by assumption.
  cbn [snd trace petsc Solve_objects solution_vec_data].
  split; [reflexivity|]. split; [reflexivity|]. split; [apply scattered_length|].
  intros i Hi.
  destruct (lookup_lt_is_Some_2 (scatter_to e) i) as [t Ht]; [lia|].
  destruct (lookup_lt_is_Some_2 (scatter_from e) i) as [f Hf]; [lia|].
  exists t, f. unfold scattered.
  rewrite !take_ge by lia.
  assert (forall j, j ∈ scatter_to e ->
            0 <= j < Z.of_nat (length (replicate
                                         (Z.to_nat (num_local_DOFs_on_this_rank e)) zero)))
    as Hto'.
  { intros j Hj. rewrite length_replicate. specialize (Hin_to j Hj). lia. }
  assert (forall j, j ∈ scatter_from e -> 0 <= j < Z.of_nat (length (ksp_solution e)))
    as Hfrom'.
  { intros j Hj. specialize (Hin_from j Hj). lia. }
  destruct (scatter_unpack_pack (ksp_solution e) (scatter_from e) (scatter_to e)
              _ i t f Hnd Hto' Hfrom' Ht Hf)
    as (a & Ha & Hlocal).
  exists a. auto.
Qed.

(** Whenever every PETSc call succeeds, the solve runs with the
    preconditioner set at line 161, whatever [-pc_type] says; the solver type
    and the tolerance are the ones of the options when given. *)
Lemma solve_runs_as_configured e s :
  petsc_ok e ->
  solved_with (petsc (snd (call_function (Solve_Linear_Systam zero e) s)))
  = Some (configured e).
Proof. intros Hok. rewrite Solve_Linear_Systam_ok by assumption. reflexivity. Qed.

(** Only the codes of the two checked calls are ever returned. *)
Lemma only_assembly_codes_are_returned e s :
  assembly_ok e -> fst (call_function (Solve_Linear_Systam zero e) s) = 0.
Proof.
  intros [Hb He]. destruct (Solve_Linear_Systam_runs zero e s) as (p' & arr & ->).
  unfold Solve_outcome. rewrite Hb, He. reflexivity.
Qed.

(** After an invocation in which every call succeeds no object of the global
    system is left. *)
Lemma global_system_destroyed_on_success e s o :
  petsc_ok e -> o ∈ global_system ->
  o ∉ live (petsc (snd (call_function (Solve_Linear_Systam zero e) s))).
Proof.
  intros Hok Ho. rewrite Solve_Linear_Systam_ok by assumption.
  cbn [snd petsc Solve_objects live]. unfold global_system in Ho.
  rewrite !elem_of_difference, !elem_of_singleton.
  repeat (apply elem_of_cons in Ho as [->|Ho]); [| | | |by apply elem_of_nil in Ho];
    intros H; tauto.
Qed.

(** C5. Whatever reason the solver stopped for, converged or not, and
    whatever the unchecked PETSc calls return, an invocation that passed the
    two assembly checks fetches the iteration count and the reason (and
    writes both to the log on rank 0), goes on to the scatter and to the
    local post-solve, destroys the system and returns [0]: the events are
    those of the same pipeline, in which the reason appears in the one log
    line that records it. *)
Theorem C5_stopping_reason_never_changes_the_flow e reason s :
  assembly_ok e ->
  exists p' arr,
    call_function (Solve_Linear_Systam zero (with_reason reason e)) s
    = (0, {| petsc := p'; clock := clock_readings e (clock s) 12 6;
             trace := (trace s ++ pipeline e (clock s) reason arr)%list |}).
Proof.
  intros [Hb He].
  destruct (Solve_Linear_Systam_runs zero (with_reason reason e) s) as (p' & arr & ->).
  exists p', arr. unfold Solve_outcome. cbn [ierr with_reason].
  rewrite Hb, He. reflexivity.
Qed.

(** C4, as amended.  Every invocation marks the matrix symmetric positive
    definite.  Not every invocation configures a solver, and the values the
    code sets are defaults: every invocation that reaches the solver (the
    two assembly checks passed) sets the relative tolerance [1e-8], the type
    [KSPCG] and the preconditioner [PCGAMG] right before [KSPSolve]; when
    every call succeeds the solve runs with [PCGAMG], with conjugate
    gradients unless [-ksp_type] was given and with tolerance [1e-8] unless
    [-ksp_rtol] was given. *)
Theorem C4_solver_configuration e s :
  called e (Call.MatSetOption global_mat MAT_SPD true)
    ∈ trace (snd (call_function (Solve_Linear_Systam zero e) s))
  /\ (assembly_ok e ->
      exists before after,
        trace (snd (call_function (Solve_Linear_Systam zero e) s))
        = (before ++ stage_configure e ++ stage_solve e ++ after)%list)
  /\ (petsc_ok e ->
      mat_spd (petsc (snd (call_function (Solve_Linear_Systam zero e) s))) = true
      /\ exists cfg,
          solved_with (petsc (snd (call_function (Solve_Linear_Systam zero e) s)))
          = Some cfg
          /\ pc_type cfg = Some PCGAMG
          /\ (opt_ksp_type (options e) = None -> ksp_type cfg = Some KSPCG)
          /\ (opt_ksp_rtol (options e) = None -> ksp_rtol cfg = tol_1E_8)).
Proof.
  split; [|split].
  - destruct (Solve_Linear_Systam_runs zero e s) as (p' & arr & ->).
    unfold Solve_outcome, pipeline.
    destruct (_ =? 0); [destruct (_ =? 0)|]; cbn [snd trace];
      apply elem_of_app; right; apply elem_of_app; left;
      unfold stage_create; set_solver.
  - intros [Hb He].
    destruct (Solve_Linear_Systam_runs zero e s) as (p' & arr & ->).
    unfold Solve_outcome, pipeline. rewrite Hb, He. cbn [Z.eqb snd trace].
    eexists (trace s ++ stage_create e ++ stage_assemble e (clock s)
             ++ stage_finalize_begin e ++ stage_finalize_end e
             ++ stage_finalize_vectors e)%list, _.
    rewrite <- !app_assoc. reflexivity.
  - intros Hok. rewrite Solve_Linear_Systam_ok by assumption.
    cbn [snd petsc Solve_objects mat_spd solved_with].
    split; [reflexivity|]. exists (configured e).
    split; [reflexivity|]. split; [reflexivity|].
    unfold configured; cbn [ksp_type ksp_rtol]. split; intros ->; reflexivity.
Qed.
(** When [MatAssemblyBegin] fails the function returns at line 137: whatever
    was created before is still there, and lines 223-227 are not reached. *)
Lemma failed_assembly_leaves_the_global_system e s o :
  (forall c, c <> Call.MatAssemblyBegin global_mat MAT_FINAL_ASSEMBLY -> ierr e c = 0) ->
  ierr e (Call.MatAssemblyBegin global_mat MAT_FINAL_ASSEMBLY) <> 0 ->
  o ∈ global_system ->
  fst (call_function (Solve_Linear_Systam zero e) s)
  = ierr e (Call.MatAssemblyBegin global_mat MAT_FINAL_ASSEMBLY)
  /\ o ∈ live (petsc (snd (call_function (Solve_Linear_Systam zero e) s))).
Proof.
  intros Hok Hfail Ho.
  apply wp_call_function
    with (P := fun r => fst r = ierr e (Call.MatAssemblyBegin global_mat MAT_FINAL_ASSEMBLY)
                        /\ o ∈ live (petsc (snd r))).
  unfold Solve_Linear_Systam, when. unfold_calls.
  assert (forall l : gset Obj,
             o ∈ {[exact_solution]} ∪ ({[solution_vec]} ∪ ({[RHS_vec]} ∪ ({[global_mat]} ∪ l))))
    as Hlive.
  { intros l. unfold global_system in Ho.
    repeat (apply elem_of_cons in Ho as [->|Ho]); [| | | |by apply elem_of_nil in Ho];
      rewrite !elem_of_union, !elem_of_singleton; tauto. }
  destruct (comm_rank e =? 0).
  - do 11 (apply wp_call_ok; [apply Hok; discriminate|]).
    repeat wp_plain.
    apply wp_call_failed; [assumption|].
    apply wp_CHKERRQ; [intros H0; contradiction|intros _].
    cbn [fst snd petsc]. split; [reflexivity|]. petsc_effects. apply Hlive.
  - do 11 (apply wp_call_ok; [apply Hok; discriminate|]).
    repeat wp_plain.
    apply wp_call_failed; [assumption|].
    apply wp_CHKERRQ; [intros H0; contradiction|intros _].
    cbn [fst snd petsc]. split; [reflexivity|]. petsc_effects. apply Hlive.
Qed.
End SolveProperties.

(** ** Properties of [Setup_System] *)

Section SetupProperties.
Context {scalar : Type}.
Implicit Types (e : Env (scalar := scalar)) (s : State (scalar := scalar)).

Ltac run_Setup_System :=
  unfold Setup_System, when, put, emit, currentDateTime, log, tick;
  cbv beta iota zeta delta [mbind M_bind mret M_ret petsc clock trace fst snd].

Lemma Setup_events_no_cout e c0 refinement text :
  Write cout text ∉ Setup_events e c0 refinement.
Proof.
  unfold Setup_events. intros H.
  destruct (comm_rank e =? 0); cbn in H;
    repeat (apply elem_of_cons in H as [H|H]; [discriminate H|]);
    by apply elem_of_nil in H.
Qed.

(** C10. On a rank numbered below the size of the communicator the guard
    [comm_rank == comm_size] of the two refinement messages is false:
    [Setup_System] leaves the refinement, the count and (on rank 0) the two
    milestones of the count, and writes nothing to the console. *)
Theorem C10_refinement_messages_never_printed e refinement s :
  0 <= comm_rank e /\ comm_rank e < comm_size e ->
  Setup_System e refinement s
  = (Normal tt, {| petsc := petsc s; clock := clock_readings e (clock s) 2 0;
                   trace := (trace s ++ Setup_events e (clock s) refinement)%list |})
  /\ forall text, Write cout text ∉ Setup_events e (clock s) refinement.
Proof.
  intros Hrank. split; [|intros text; apply Setup_events_no_cout].
  assert ((comm_rank e =? comm_size e) = false) as Hguard by (apply Z.eqb_neq; lia).
  run_Setup_System. unfold Setup_events, clock_readings. rewrite Hguard.
  destruct (comm_rank e =? 0); norm_trace; reflexivity.
Qed.

Lemma Setup_System_silent_log e refinement s :
  comm_rank e <> 0 ->
  writes_to Execution_Time (trace (snd (Setup_System e refinement s)))
  = writes_to Execution_Time (trace s).
Proof.
  intros Hr. apply Z.eqb_neq in Hr.
  run_Setup_System. rewrite Hr.
  destruct (comm_rank e =? comm_size e); cbn [snd trace];
    unfold writes_to; rewrite !List.filter_app; cbn; rewrite ?app_nil_r; reflexivity.
Qed.
End SetupProperties.

(** ** Reporting is left to rank 0 *)

Section Reporting.
Context {scalar : Type}.
Variable zero : scalar.
Implicit Types (e : Env (scalar := scalar)) (s : State (scalar := scalar)).

(** C8. On a rank other than 0, [OutLogger] leaves the state as it is (it
    writes nothing), an invocation of [Solve_Linear_Systam] adds no output
    at all to the trace (no milestone, no converged reason, no iteration
    count, no timing line on the console), however it ends, and
    [Setup_System] adds no line to the execution-time log. *)
Theorem C8_no_reporting_off_rank_0 e s :
  comm_rank e <> 0 ->
  (forall logger text insert_eol, OutLogger e logger text insert_eol s = (Normal tt, s))
  /\ writes (trace (snd (call_function (Solve_Linear_Systam zero e) s)))
     = writes (trace s)
  /\ (forall refinement,
        writes_to Execution_Time (trace (snd (Setup_System e refinement s)))
        = writes_to Execution_Time (trace s)).
Proof.
  intros Hr. split; [|split].
  - intros logger text insert_eol. unfold OutLogger, when.
    apply Z.eqb_neq in Hr. rewrite Hr. reflexivity.
  - destruct (Solve_Linear_Systam_runs zero e s) as (p' & arr & ->).
    unfold Solve_outcome.
    destruct (early_return_silent e (clock s) Hr) as [He Hb].
    destruct (_ =? 0); [destruct (_ =? 0)|]; cbn [snd trace];
      rewrite writes_app.
    + rewrite pipeline_silent by assumption. apply app_nil_r.
    + rewrite He. apply app_nil_r.
    + rewrite Hb. apply app_nil_r.
  - intros refinement. by apply Setup_System_silent_log.
Qed.
End Reporting.

(** ** Properties of [main] *)

Section MainProofs.
Context {scalar : Type}.
Variable zero : scalar.
Implicit Types (env : MainEnv (scalar := scalar)) (s : MainState (scalar := scalar))
         (t : list (MainEvent (scalar := scalar))).

Lemma record_prefixed t ev s : record ev (prefixed t s) = prefixed t (record ev s).
Proof. unfold record, prefixed. cbn. rewrite app_assoc. reflexivity. Qed.

Lemma leave_prefixed t ev s (s' : State (scalar := scalar)) :
  leave ev (prefixed t s) s' = prefixed t (leave ev s s').
Proof. unfold leave, prefixed. cbn. rewrite app_assoc. reflexivity. Qed.

Lemma enter_prefixed t s : enter (prefixed t s) = enter s.
Proof. reflexivity. Qed.

Lemma level_body_prefixed env p1 h1 t s :
  level_body zero env p1 h1 (prefixed t s) = prefixed t <$> level_body zero env p1 h1 s.
Proof.
  unfold level_body. rewrite enter_prefixed, leave_prefixed, enter_prefixed.
  destruct (call_function _ _) as [code s'].
  rewrite leave_prefixed, record_prefixed. reflexivity.
Qed.

Lemma for_unsigned_prefixed (body : Z -> MainState -> option MainState) t :
  (forall i s, body i (prefixed t s) = prefixed t <$> body i s) ->
  forall fuel lo hi s,
    for_unsigned fuel lo hi body (prefixed t s)
    = prefixed t <$> for_unsigned fuel lo hi body s.
Proof.
  intros Hbody. induction fuel as [|fuel IH]; intros lo hi s; [reflexivity|].
  cbn [for_unsigned]. destruct (lo <? hi); [|reflexivity].
  rewrite Hbody. destruct (body lo s) as [s'|]; [|reflexivity].
  cbn. apply IH.
Qed.

Lemma degree_body_prefixed fuel env threads Adaptive h_1 h_2 p1 t s :
  degree_body zero fuel env threads Adaptive h_1 h_2 p1 (prefixed t s)
  = prefixed t <$> degree_body zero fuel env threads Adaptive h_1 h_2 p1 s.
Proof.
  unfold degree_body. rewrite record_prefixed.
  rewrite for_unsigned_prefixed by (intros; apply level_body_prefixed).
  destruct (for_unsigned _ _ _ _ _) as [s'|]; [|reflexivity].
  cbn. rewrite record_prefixed. reflexivity.
Qed.

(** The name in the buffer is one of the two recognised names exactly when
    the name given is: the buffer holds 99 characters. *)
Lemma substring_0_eq n (v w : string) :
  (String.length w < n)%nat -> substring 0 n v = w <-> v = w.
Proof.
  revert v w. induction n as [|n IH]; intros v w Hlen; [lia|].
  destruct v as [|c v]; cbn [substring]; [reflexivity|].
  destruct w as [|d w]; [split; discriminate|].
  cbn in Hlen. split; intros H; injection H as -> H; f_equal; apply (IH v w); auto; lia.
Qed.

Lemma recognised_in_buffer (v w : string) :
  (String.length w < 99)%nat ->
  String.eqb (substring 0 (100 - 1) v) w = bool_decide (v = w).
Proof.
  intros Hlen. change (100 - 1)%nat with 99%nat.
  destruct (String.eqb_spec (substring 0 99 v) w) as [H|H].
  - apply substring_0_eq in H; [|assumption]. symmetry. by apply bool_decide_eq_true.
  - symmetry. apply bool_decide_eq_false. intros Hv. apply H.
    by apply substring_0_eq.
Qed.

(** [main] is its prologue, the report on the face basis, the two loops and
    [SlepcFinalize]. *)
Lemma main_decomposed fuel env :
  main zero fuel env
  = match main_loops zero fuel env with
    | Some s =>
        Some (0, record SlepcFinalize
                        (prefixed (prologue env ++ face_basis_reported env) s))
    | None => None
    end.
Proof.
  unfold main, main_loops, p_1_read, p_2_read, h_1_read, h_2_read.
  destruct (PetscOptionsGetInt (opt_p_0 _) _) as [p_1 ?].
  destruct (PetscOptionsGetInt (opt_p_n _) _) as [p_2 ?].
  destruct (PetscOptionsGetInt (opt_h_0 _) _) as [h_1 ?].
  destruct (PetscOptionsGetInt (opt_h_n _) _) as [h_2 ?].
  destruct (PetscOptionsGetInt (opt_amr _) _) as [Adaptive ?].
  cbn [fst].
  set (body := degree_body zero fuel env _ Adaptive h_1 h_2).
  set (s_empty := {| world := no_objects; time := 0%nat; main_trace := [] |}).
  assert (forall t,
             match for_unsigned fuel (to_unsigned p_1) (to_unsigned p_2) body s_empty with
             | Some s => Some (0, record SlepcFinalize (prefixed t s))
             | None => None
             end
             = match for_unsigned fuel (to_unsigned p_1) (to_unsigned p_2) body
                                  (prefixed t s_empty) with
               | Some s => Some (0, record SlepcFinalize s)
               | None => None
               end) as Hframe.
  { intros t. rewrite for_unsigned_prefixed by (intros; apply degree_body_prefixed).
    destruct (for_unsigned _ _ _ _ _) as [s'|]; reflexivity. }
  rewrite Hframe. clear Hframe.
  unfold face_basis_reported, face_basis_report, prologue, PetscOptionsGetString,
    threads_line.
  destruct (opt_face_basis (main_options env)) as [v|]; cbv beta iota zeta.
  - rewrite !recognised_in_buffer by (cbn; lia).
    destruct (bool_decide_reflect (v = "lagrange")) as [Hl|Hl].
    + rewrite (bool_decide_eq_true_2 (v = "legendre" \/ v = "lagrange")) by auto.
      destruct (rank env =? 0); reflexivity.
    + destruct (bool_decide_reflect (v = "legendre")) as [Hg|Hg].
      * rewrite (bool_decide_eq_true_2 (v = "legendre" \/ v = "lagrange")) by auto.
        destruct (rank env =? 0); reflexivity.
      * rewrite (bool_decide_eq_false_2 (v = "legendre" \/ v = "lagrange")) by tauto.
        destruct (rank env =? 0); reflexivity.
  - destruct (rank env =? 0); reflexivity.
Qed.

(** A loop whose body always returns and adds the steps [per i] takes the
    steps of the half-open range, in increasing order, when its bound is an
    [unsigned] and the fuel covers the range. *)
Lemma for_unsigned_steps (body : Z -> MainState -> option MainState)
      (per : Z -> list Step) hi :
  hi < 2 ^ 32 ->
  forall fuel lo s,
    0 <= lo ->
    (forall i s', lo <= i < hi ->
                  exists s'', body i s' = Some s'' /\
                              steps (main_trace s'') = (steps (main_trace s') ++ per i)%list) ->
    (Z.to_nat (hi - lo) < fuel)%nat ->
    exists s'', for_unsigned fuel lo hi body s = Some s'' /\
                steps (main_trace s'')
                = (steps (main_trace s) ++ flat_map per (seqZ lo (hi - lo)))%list.
Proof.
  intros Hhi. induction fuel as [|fuel IH]; intros lo s Hlo Hbody Hfuel; [lia|].
  cbn [for_unsigned]. destruct (Z.ltb_spec lo hi) as [Hlt|Hge].
  - destruct (Hbody lo s) as (s1 & -> & Hs1); [lia|].
    assert (to_unsigned (lo + 1) = lo + 1) as ->.
    { unfold to_unsigned. apply Z.mod_small. lia. }
    destruct (IH (lo + 1) s1) as (s2 & -> & Hs2); [lia| |lia|].
    { intros i s' Hi. apply Hbody. lia. }
    exists s2. split; [reflexivity|].
    rewrite Hs2, Hs1, (seqZ_cons lo (hi - lo)) by lia. cbn [flat_map].
    replace (Z.pred (hi - lo)) with (hi - (lo + 1)) by lia.
    replace (Z.succ lo) with (lo + 1) by lia.
    rewrite <- app_assoc. reflexivity.
  - exists s. split; [reflexivity|].
    rewrite seqZ_nil by lia. cbn. rewrite app_nil_r. reflexivity.
Qed.

Lemma steps_app t1 t2 : steps (t1 ++ t2) = (steps t1 ++ steps t2)%list.
Proof. apply omap_app. Qed.

Lemma level_body_steps env p1 h1 s :
  exists s', level_body zero env p1 h1 s = Some s' /\
             steps (main_trace s')
             = (steps (main_trace s) ++ [Setup h1; Solve; Visualize])%list.
Proof.
  unfold level_body. destruct (call_function _ _) as [code s1].
  eexists. split; [reflexivity|].
  cbn [record leave main_trace]. rewrite !steps_app, <- !app_assoc. reflexivity.
Qed.

Lemma to_unsigned_nonneg z : nonneg_int z -> to_unsigned z = z.
Proof. unfold nonneg_int, to_unsigned. intros H. apply Z.mod_small. lia. Qed.

Lemma to_unsigned_range z : 0 <= to_unsigned z < 2 ^ 32.
Proof. unfold to_unsigned. apply Z.mod_pos_bound. lia. Qed.

Lemma degree_body_steps fuel env threads Adaptive h_1 h_2 p1 s :
  (Z.to_nat (to_unsigned h_2 - to_unsigned h_1) < fuel)%nat ->
  exists s', degree_body zero fuel env threads Adaptive h_1 h_2 p1 s = Some s' /\
             steps (main_trace s')
             = (steps (main_trace s)
                ++ Constructed p1
                   :: flat_map (fun h => [Setup h; Solve; Visualize])
                               (seqZ (to_unsigned h_1)
                                     (to_unsigned h_2 - to_unsigned h_1)))%list.
Proof.
  intros Hfuel. unfold degree_body.
  destruct (for_unsigned_steps (level_body zero env p1)
              (fun h => [Setup h; Solve; Visualize]) (to_unsigned h_2)
              (proj2 (to_unsigned_range h_2)) fuel (to_unsigned h_1)
              (record (Construct_Diffusion p1 (size env) (rank env) threads Adaptive) s)
              (proj1 (to_unsigned_range h_1))
              (fun i s' _ => level_body_steps env p1 i s') Hfuel)
    as (s1 & -> & Hs1).
  eexists. split; [reflexivity|].
  cbn [record main_trace]. rewrite steps_app, Hs1.
  cbn [record main_trace]. rewrite steps_app. cbn. rewrite app_nil_r, <- app_assoc.
  reflexivity.
Qed.

Lemma prologue_steps env : steps (prologue env) = [].
Proof. unfold prologue. destruct (rank env =? 0); reflexivity. Qed.

Lemma face_basis_reported_steps env : steps (face_basis_reported env) = [].
Proof.
  unfold face_basis_reported, face_basis_report.
  destruct (opt_face_basis _); [|reflexivity].
  destruct (bool_decide _); [reflexivity|]. destruct (rank env =? 0); reflexivity.
Qed.

(** The two loops on their own: with enough fuel they terminate, having
    taken the steps of the two ranges of [unsigned] values. *)
Lemma main_loops_steps fuel env :
  (Z.to_nat (to_unsigned (p_2_read env) - to_unsigned (p_1_read env)) < fuel)%nat ->
  (Z.to_nat (to_unsigned (h_2_read env) - to_unsigned (h_1_read env)) < fuel)%nat ->
  exists s1,
    main_loops zero fuel env = Some s1
    /\ steps (main_trace s1)
       = outer_loop_spec (to_unsigned (p_1_read env)) (to_unsigned (p_2_read env))
                         (to_unsigned (h_1_read env)) (to_unsigned (h_2_read env)).
Proof.
  intros Hfp Hfh. unfold main_loops.
  destruct (for_unsigned_steps
              (degree_body zero fuel env
                 (match OPENMP_max_threads env with Some n => n | None => 1 end)
                 (fst (PetscOptionsGetInt (opt_amr (main_options env)) 0))
                 (h_1_read env) (h_2_read env))
              (fun p => Constructed p
                        :: flat_map (fun h => [Setup h; Solve; Visualize])
                                    (seqZ (to_unsigned (h_1_read env))
                                          (to_unsigned (h_2_read env)
                                           - to_unsigned (h_1_read env))))
              (to_unsigned (p_2_read env)) (proj2 (to_unsigned_range _))
              fuel (to_unsigned (p_1_read env))
              {| world := no_objects; time := 0%nat; main_trace := [] |}
              (proj1 (to_unsigned_range _))
              (fun i s' _ => degree_body_steps fuel env _ _ _ _ i s' Hfh) Hfp)
    as (s1 & Hs1 & Hsteps).
  exists s1. split; [exact Hs1|]. exact Hsteps.
Qed.

(** Whatever the four [int]s hold, the loops run over the ranges of their
    values as [unsigned], and [main] goes on whatever
    [Solve_Linear_Systam] returns. *)
Lemma main_steps_unsigned fuel env :
  (Z.to_nat (to_unsigned (p_2_read env) - to_unsigned (p_1_read env)) < fuel)%nat ->
  (Z.to_nat (to_unsigned (h_2_read env) - to_unsigned (h_1_read env)) < fuel)%nat ->
  exists s,
    main zero fuel env = Some (0, s)
    /\ steps (main_trace s)
       = outer_loop_spec (to_unsigned (p_1_read env)) (to_unsigned (p_2_read env))
                         (to_unsigned (h_1_read env)) (to_unsigned (h_2_read env)).
Proof.
  intros Hfp Hfh.
  rewrite main_decomposed. unfold main_loops.
  destruct (for_unsigned_steps
              (degree_body zero fuel env
                 (match OPENMP_max_threads env with Some n => n | None => 1 end)
                 (fst (PetscOptionsGetInt (opt_amr (main_options env)) 0))
                 (h_1_read env) (h_2_read env))
              (fun p => Constructed p
                        :: flat_map (fun h => [Setup h; Solve; Visualize])
                                    (seqZ (to_unsigned (h_1_read env))
                                          (to_unsigned (h_2_read env)
                                           - to_unsigned (h_1_read env))))
              (to_unsigned (p_2_read env)) (proj2 (to_unsigned_range _))
              fuel (to_unsigned (p_1_read env))
              {| world := no_objects; time := 0%nat; main_trace := [] |}
              (proj1 (to_unsigned_range _))
              (fun i s' _ => degree_body_steps fuel env _ _ _ _ i s' Hfh) Hfp)
    as (s1 & -> & Hs1).
  eexists. split; [reflexivity|].
  cbn [record prefixed main_trace].
  rewrite !steps_app, prologue_steps, face_basis_reported_steps, Hs1.
  cbn. rewrite app_nil_r. reflexivity.
Qed.

(** C7, as amended.  The bounds of the two ranges are the four [int]s
    [main] reads, converted to [unsigned].  With enough fuel for the two
    loops, [main] terminates with [0] and takes these steps, in this order:
    for each degree of [[(unsigned)p_1, (unsigned)p_2)] one solver instance
    is constructed, then for each level of [[(unsigned)h_1, (unsigned)h_2)]
    in increasing order [Setup_System], [Solve_Linear_Systam] and the
    visualizer are called.  For bounds that are not negative these are the
    ranges [[p_1, p_2)] and [[h_1, h_2)] themselves. *)
Theorem C7_outer_loop_sweeps_the_unsigned_ranges fuel env :
  (Z.to_nat (to_unsigned (p_2_read env) - to_unsigned (p_1_read env)) < fuel)%nat ->
  (Z.to_nat (to_unsigned (h_2_read env) - to_unsigned (h_1_read env)) < fuel)%nat ->
  exists s,
    main zero fuel env = Some (0, s)
    /\ steps (main_trace s)
       = outer_loop_spec (to_unsigned (p_1_read env)) (to_unsigned (p_2_read env))
                         (to_unsigned (h_1_read env)) (to_unsigned (h_2_read env))
    /\ (nonneg_int (p_1_read env) -> nonneg_int (p_2_read env) ->
        nonneg_int (h_1_read env) -> nonneg_int (h_2_read env) ->
        steps (main_trace s)
        = outer_loop_spec (p_1_read env) (p_2_read env) (h_1_read env) (h_2_read env)).
Proof.
  intros Hfp Hfh.
  destruct (main_steps_unsigned fuel env Hfp Hfh) as (s & Hs & Hsteps).
  exists s. split; [exact Hs|]. split; [exact Hsteps|].
  intros Hp1 Hp2 Hh1 Hh2. rewrite Hsteps.
  rewrite (to_unsigned_nonneg (p_1_read env)), (to_unsigned_nonneg (p_2_read env)),
    (to_unsigned_nonneg (h_1_read env)), (to_unsigned_nonneg (h_2_read env))
    by assumption.
  reflexivity.
Qed.

(** C9. With enough fuel for the two loops, the run given [-face_basis v]
    and the run without the option (the one that keeps the face basis it
    had) both terminate with [0], with the same objects and the same events
    after the prologue, all the steps of the two loops among them, up to
    [SlepcFinalize]: the run continues and the value is not used.  The one
    difference is the report, right after the prologue: when [v] is neither
    ["legendre"] nor ["lagrange"], rank 0 prints the message and the line
    on the threads; the other ranks print nothing, and the two recognised
    names are not reported. *)
Theorem C9_unrecognised_face_basis_reported_on_rank_0_only fuel env v :
  (Z.to_nat (to_unsigned (p_2_read env) - to_unsigned (p_1_read env)) < fuel)%nat ->
  (Z.to_nat (to_unsigned (h_2_read env) - to_unsigned (h_1_read env)) < fuel)%nat ->
  exists s0 s_v rest,
    main zero fuel (with_face_basis None env) = Some (0, s0)
    /\ main zero fuel (with_face_basis (Some v) env) = Some (0, s_v)
    /\ world s_v = world s0 /\ time s_v = time s0
    /\ main_trace s0 = (prologue env ++ rest)%list
    /\ main_trace s_v
       = (prologue env
          ++ (if bool_decide (v = "legendre" \/ v = "lagrange") then []
              else if rank env =? 0
                   then [Main_cout face_basis_message;
                         Main_cout (threads_line env ++ endl)%string]
                   else [])
          ++ rest)%list
    /\ steps rest
       = outer_loop_spec (to_unsigned (p_1_read env)) (to_unsigned (p_2_read env))
                         (to_unsigned (h_1_read env)) (to_unsigned (h_2_read env))
    /\ last rest = Some SlepcFinalize.
Proof.
  intros Hfp Hfh.
  destruct (main_loops_steps fuel env Hfp Hfh) as (s1 & Hs1 & Hsteps).
  rewrite !main_decomposed.
  change (main_loops zero fuel (with_face_basis None env))
    with (main_loops zero fuel env).
  change (main_loops zero fuel (with_face_basis (Some v) env))
    with (main_loops zero fuel env).
  rewrite Hs1.
  eexists _, _, (main_trace s1 ++ [SlepcFinalize])%list.
  split; [reflexivity|]. split; [reflexivity|].
  cbn [record prefixed world time main_trace].
  split; [reflexivity|]. split; [reflexivity|].
  change (prologue (with_face_basis None env)) with (prologue env).
  change (prologue (with_face_basis (Some v) env)) with (prologue env).
  change (face_basis_reported (with_face_basis None env))
    with (@nil (MainEvent (scalar := scalar))).
  change (face_basis_reported (with_face_basis (Some v) env))
    with (face_basis_report env v).
  unfold face_basis_report.
  rewrite app_nil_r, <- !app_assoc. split; [reflexivity|]. split; [reflexivity|].
  split.
  - rewrite steps_app, Hsteps. cbn. rewrite app_nil_r. reflexivity.
  - apply last_snoc.
Qed.
End MainProofs.

(** ** The properties at sample invocations *)

Lemma sample_env_ok rank_ o : petsc_ok (sample_env rank_ all_succeed o).
Proof. intros c. reflexivity. Qed.

Lemma sample_env_assembly_ok rank_ o : assembly_ok (sample_env rank_ all_succeed o).
Proof. split; reflexivity. Qed.

(** C1 on rank 1 of the sample: the array handed to the local post-solve has
    three entries, and its entry [scatter_to[0] = 1] is the entry
    [scatter_from[0] = 3] of the solution. *)
Lemma C1_witness :
  exists local : list Z,
    trace (snd (call_function
                  (Solve_Linear_Systam 0 (sample_env 1 all_succeed no_options))
                  initial_state))
    = pipeline (sample_env 1 all_succeed no_options) 0 2 (Some local)
    /\ length local = 3%nat
    /\ vec_get local 1 = vec_get [10; 11; 12; 13] 3.
Proof.
  assert (NoDup [1; 2; 0]) as Hnd by exact (bool_decide_unpack (NoDup [1; 2; 0]) I).
  assert (forall j, j ∈ [1; 2; 0] -> 0 <= j /\ j < 3) as Hto.
  { intros j Hj. repeat (apply elem_of_cons in Hj as [->|Hj]); try lia.
    by apply elem_of_nil in Hj. }
  assert (forall j, j ∈ [3; 0; 2] -> 0 <= j /\ j < 4) as Hfrom.
  { intros j Hj. repeat (apply elem_of_cons in Hj as [->|Hj]); try lia.
    by apply elem_of_nil in Hj. }
  destruct (C1_scatter_feeds_local_post_solve
              0 (sample_env 1 all_succeed no_options) initial_state
              (sample_env_ok 1 no_options) eq_refl eq_refl Hnd Hto Hfrom)
    as (local & Htrace & _ & Hlen & Hval).
  exists local. split; [exact Htrace|]. split; [exact Hlen|].
  destruct (Hval 0%nat ltac:(cbn; lia)) as (t0 & f0 & a0 & Ht0 & Hf0 & Ha0 & Hl0).
  cbn in Ht0, Hf0. injection Ht0 as <-. injection Hf0 as <-.
  rewrite Hl0. symmetry. exact Ha0.
Defined.

(** C2 at [-ksp_type gmres -pc_type hypre], every call succeeding: the solve
    runs with the solver type of the options and with the preconditioner of
    line 161, not the one of the options. *)
Theorem C2_pc_type_option_is_overwritten :
  solved_with
    (petsc (snd (call_function
                   (Solve_Linear_Systam 0 (sample_env 0 all_succeed gmres_hypre))
                   initial_state)))
  = Some {| ksp_type := Some "gmres"; ksp_rtol := tol_1E_8;
            pc_type := Some "gamg"; pc_gamg_type := Some "agg";
            pc_gamg_nsmooths := Some 1 |}.
Proof. vm_compute. reflexivity. Qed.

(** C3 where [MatCreate] returns [PETSC_ERR_MEM]: the function goes through
    the whole pipeline, collective calls included, and returns [0]. *)
Theorem C3_failed_MatCreate_is_not_propagated :
  ierr (sample_env 1 MatCreate_fails no_options) (Call.MatCreate global_mat) = 55
  /\ fst (call_function (Solve_Linear_Systam 0 (sample_env 1 MatCreate_fails no_options))
                        initial_state) = 0
  /\ trace (snd (call_function
                    (Solve_Linear_Systam 0 (sample_env 1 MatCreate_fails no_options))
                    initial_state))
     = pipeline (sample_env 1 MatCreate_fails no_options) 0 2 (Some [12; 13; 10]).
Proof. split; [reflexivity|]. split; vm_compute; reflexivity. Qed.

(** The claim C4 as it is stated fails in two ways.  At
    [-ksp_type gmres -ksp_rtol 1e-3] the solve runs with GMRES and the
    tolerance [1e-3]; and where [MatAssemblyBegin] fails, the invocation
    returns without a call that sets up, configures or runs a solver. *)
Lemma C4_counterexample :
  (exists cfg,
      solved_with
        (petsc (snd (call_function
                       (Solve_Linear_Systam 0 (sample_env 0 all_succeed gmres_1E_3))
                       initial_state)))
      = Some cfg
      /\ ksp_type cfg = Some "gmres" /\ ksp_type cfg <> Some KSPCG
      /\ ksp_rtol cfg = (1 # 1000)%Q /\ ~ (ksp_rtol cfg == tol_1E_8)%Q)
  /\ solved_with
       (petsc (snd (call_function
                      (Solve_Linear_Systam
                         0 (sample_env 0 MatAssemblyBegin_fails no_options))
                      initial_state)))
     = None
  /\ List.filter is_solver_call
       (trace (snd (call_function
                      (Solve_Linear_Systam
                         0 (sample_env 0 MatAssemblyBegin_fails no_options))
                      initial_state)))
     = [].
Proof.
  split; [|split; vm_compute; reflexivity].
  eexists. split; [vm_compute; reflexivity|]. cbn [ksp_type ksp_rtol].
  split; [reflexivity|]. split; [discriminate|]. split; [reflexivity|].
  intros H. vm_compute in H. discriminate H.
Qed.

(** C4 on rank 0 of the sample, no option given: the solve runs as conjugate
    gradients with relative tolerance [1e-8], preconditioned by GAMG. *)
Lemma C4_witness :
  assembly_ok (sample_env 0 all_succeed no_options)
  /\ petsc_ok (sample_env 0 all_succeed no_options)
  /\ exists cfg,
      solved_with
        (petsc (snd (call_function
                       (Solve_Linear_Systam 0 (sample_env 0 all_succeed no_options))
                       initial_state)))
      = Some cfg
      /\ ksp_type cfg = Some KSPCG /\ ksp_rtol cfg = tol_1E_8
      /\ pc_type cfg = Some PCGAMG.
Proof.
  split; [apply sample_env_assembly_ok|]. split; [apply sample_env_ok|].
  destruct (C4_solver_configuration 0 (sample_env 0 all_succeed no_options) initial_state)
    as (_ & _ & H).
  destruct (H (sample_env_ok 0 no_options)) as (_ & cfg & Hcfg & Hpc & Hty & Htol).
  exists cfg. split; [exact Hcfg|]. split; [apply Hty; reflexivity|].
  split; [apply Htol; reflexivity | exact Hpc].
Defined.

(** C5 on rank 1 of the sample, the solver stopping with
    [KSP_DIVERGED_ITS] (-3). *)
Lemma C5_witness :
  assembly_ok (sample_env 1 all_succeed no_options)
  /\ exists p' arr,
      call_function
        (Solve_Linear_Systam 0 (with_reason (-3) (sample_env 1 all_succeed no_options)))
        initial_state
      = (0, {| petsc := p';
               clock := clock_readings (sample_env 1 all_succeed no_options) 0 12 6;
               trace := pipeline (sample_env 1 all_succeed no_options) 0 (-3) arr |}).
Proof.
  split; [apply sample_env_assembly_ok|].
  exact (C5_stopping_reason_never_changes_the_flow
           0 (sample_env 1 all_succeed no_options) (-3) initial_state
           (sample_env_assembly_ok 1 no_options)).
Defined.

(** C6 where [MatAssemblyBegin] returns an error: the function returns that
    code at line 137 with the matrix and the three vectors still there; and
    [main], which drops the code, goes through all its iterations and ends
    with them still there. *)
Theorem C6_global_system_survives_failed_assembly :
  fst (call_function (Solve_Linear_Systam 0 (sample_env 1 MatAssemblyBegin_fails no_options))
                     initial_state) = 63
  /\ Forall (fun o => o ∈ live (petsc (snd (call_function
                (Solve_Linear_Systam 0 (sample_env 1 MatAssemblyBegin_fails no_options))
                initial_state))))
            global_system
  /\ exists s,
      main 0 5 failing_main_env = Some (0, s)
      /\ steps (main_trace s)
         = [Constructed 1; Setup 0; Solve; Visualize; Setup 1; Solve; Visualize;
            Constructed 2; Setup 0; Solve; Visualize; Setup 1; Solve; Visualize]
      /\ Forall (fun o => o ∈ live (world s)) global_system.
Proof.
  split; [vm_compute; reflexivity|]. split.
  - unfold global_system. repeat constructor.
    all: apply bool_decide_unpack; vm_compute; exact I.
  - destruct (main 0 5 failing_main_env) as [[code s]|] eqn:Hmain;
      [|vm_compute in Hmain; discriminate Hmain].
    vm_compute in Hmain. injection Hmain as <- <-.
    eexists. split; [reflexivity|]. split; [reflexivity|].
    unfold global_system. repeat constructor.
    all: apply bool_decide_unpack; vm_compute; exact I.
Qed.

(** The claim C7 as it is stated fails at [-p_0 -1 -p_n 2]: the range
    [[-1, 2)] holds the degrees -1, 0 and 1, and [main] constructs no solver
    at all, [(unsigned)-1] being above 2. *)
Lemma C7_counterexample :
  p_1_read negative_degree_main_env = -1
  /\ p_2_read negative_degree_main_env = 2
  /\ exists s,
      main 0 1 negative_degree_main_env = Some (0, s)
      /\ steps (main_trace s) = []
      /\ steps (main_trace s)
         <> outer_loop_spec (p_1_read negative_degree_main_env)
                            (p_2_read negative_degree_main_env)
                            (h_1_read negative_degree_main_env)
                            (h_2_read negative_degree_main_env).
Proof.
  split; [reflexivity|]. split; [reflexivity|].
  eexists. split; [vm_compute; reflexivity|].
  split; [reflexivity|]. vm_compute. discriminate.
Qed.

(** C7 for [-p_0 1 -p_n 3 -h_0 0 -h_n 2]. *)
Lemma C7_witness :
  exists s,
    main 0 5 (sample_main_env 0 None) = Some (0, s)
    /\ steps (main_trace s)
       = [Constructed 1; Setup 0; Solve; Visualize; Setup 1; Solve; Visualize;
          Constructed 2; Setup 0; Solve; Visualize; Setup 1; Solve; Visualize].
Proof.
  destruct (C7_outer_loop_sweeps_the_unsigned_ranges 0 5%nat (sample_main_env 0 None))
    as (s & Hs & Hsteps & _); [vm_compute; lia | vm_compute; lia |].
  exists s. split; [exact Hs | exact Hsteps].
Defined.

(** C9 on rank 0 of the sample run, given [-face_basis nodal]: the report
    is printed after the prologue and the run goes through all its steps. *)
Lemma C9_witness :
  exists s0 s_v rest,
    main 0 5 (with_face_basis None (sample_main_env 0 None)) = Some (0, s0)
    /\ main 0 5 (with_face_basis (Some "nodal") (sample_main_env 0 None)) = Some (0, s_v)
    /\ main_trace s0 = (prologue (sample_main_env 0 None) ++ rest)%list
    /\ main_trace s_v
       = (prologue (sample_main_env 0 None)
          ++ [Main_cout face_basis_message;
              Main_cout (threads_line (sample_main_env 0 None) ++ endl)%string]
          ++ rest)%list
    /\ steps rest
       = [Constructed 1; Setup 0; Solve; Visualize; Setup 1; Solve; Visualize;
          Constructed 2; Setup 0; Solve; Visualize; Setup 1; Solve; Visualize].
Proof.
  destruct (C9_unrecognised_face_basis_reported_on_rank_0_only
              0 5%nat (sample_main_env 0 None) "nodal")
    as (s0 & s_v & rest & H0 & Hv & _ & _ & Ht0 & Htv & Hsteps & _);
    [vm_compute; lia | vm_compute; lia |].
  exists s0, s_v, rest.
  split; [exact H0|]. split; [exact Hv|]. split; [exact Ht0|].
  split; [exact Htv | exact Hsteps].
Defined.

(** C8 on rank 1 of the sample. *)
Lemma C8_witness :
  comm_rank (sample_env 1 all_succeed no_options) <> 0
  /\ writes (trace (snd (call_function
                           (Solve_Linear_Systam 0 (sample_env 1 all_succeed no_options))
                           initial_state)))
     = [].
Proof.
  assert (comm_rank (sample_env 1 all_succeed no_options) <> 0) as Hr by discriminate.
  split; [exact Hr|].
  exact (proj1 (proj2 (C8_no_reporting_off_rank_0
                         0 (sample_env 1 all_succeed no_options) initial_state Hr))).
Defined.

(** C10 on rank 1 of 2. *)
Lemma C10_witness :
  (0 <= 1 /\ 1 < 2)
  /\ forall text,
      Write cout text
        ∉ Setup_events (sample_env 1 all_succeed no_options) 0 3.
Proof.
  assert (0 <= 1 /\ 1 < 2) as Hrank by lia.
  split; [exact Hrank|].
  exact (proj2 (C10_refinement_messages_never_printed
                  (sample_env 1 all_succeed no_options) 3 initial_state Hrank)).
Defined.

(** * Beyond the contract: [Tokenize], [parse_my_options], and further
      properties of the driver *)

(** ** [Tokenize] *)

Section TokenizeProofs.
Implicit Types (s d l a : list ascii) (P : ascii -> bool).

Lemma find_if_skip P a l i :
  Forall (fun c => P c = false) a ->
  find_if P (a ++ l) i = find_if P l (i + Z.of_nat (length a)).
Proof.
  intros Ha. revert i. induction Ha as [|c a Hc Ha IH]; intros i; cbn [app find_if length].
  - f_equal. lia.
  - rewrite Hc, IH. f_equal. lia.
Qed.

(** A list is a run of characters that fail [P] followed by nothing or by
    a character that satisfies it. *)
Lemma span P l :
  exists a l', l = (a ++ l')%list /\ Forall (fun c => P c = false) a
               /\ (l' = [] \/ exists c l'', l' = c :: l'' /\ P c = true).
Proof.
  induction l as [|c l (a & l' & -> & Ha & Hl')].
  - exists [], []. repeat split; auto.
  - destruct (P c) eqn:Hc.
    + exists [], (c :: a ++ l')%list. repeat split; eauto.
    + exists (c :: a), l'. repeat split; auto.
Qed.

Lemma span_unique P a a' l l' :
  (a ++ l = a' ++ l')%list ->
  Forall (fun c => P c = false) a -> Forall (fun c => P c = false) a' ->
  (forall c, head l = Some c -> P c = true) ->
  (forall c, head l' = Some c -> P c = true) ->
  a = a' /\ l = l'.
Proof.
  intros Heq Ha. revert a' Heq. induction Ha as [|c a Hc Ha IH]; intros a' Heq Ha' Hl Hl'.
  - destruct Ha' as [|c' a' Hc' Ha']; [auto|]. cbn in Heq. subst l.
    specialize (Hl c' eq_refl). congruence.
  - destruct Ha' as [|c' a' Hc' Ha'].
    + cbn in Heq. subst l'. specialize (Hl' c eq_refl). congruence.
    + cbn in Heq. injection Heq as <- Heq.
      destruct (IH a' Heq Ha' Hl Hl') as [-> ->]. auto.
Qed.

Lemma is_any_of_true d c : is_any_of d c = true <-> c ∈ d.
Proof. unfold is_any_of. apply bool_decide_eq_true. Qed.

Lemma is_any_of_false d c : is_any_of d c = false <-> c ∉ d.
Proof. unfold is_any_of. apply bool_decide_eq_false. Qed.

Lemma find_first_of_at pre suf d :
  find_first_of (pre ++ suf) d (Z.of_nat (length pre))
  = find_if (is_any_of d) suf (Z.of_nat (length pre)).
Proof.
  unfold find_first_of. rewrite length_app, Nat2Z.id, drop_app_length.
  destruct (Z.ltb_spec (Z.of_nat (length pre)) (Z.of_nat (length pre + length suf)));
    [reflexivity|].
  destruct suf; [reflexivity|cbn in *; lia].
Qed.

Lemma find_first_not_of_at pre suf d :
  find_first_not_of (pre ++ suf) d (Z.of_nat (length pre))
  = find_if (fun c => negb (is_any_of d c)) suf (Z.of_nat (length pre)).
Proof.
  unfold find_first_not_of. rewrite length_app, Nat2Z.id, drop_app_length.
  destruct (Z.ltb_spec (Z.of_nat (length pre)) (Z.of_nat (length pre + length suf)));
    [reflexivity|].
  destruct suf; [reflexivity|cbn in *; lia].
Qed.

Lemma find_at_npos s d :
  Z.of_nat (length s) < npos ->
  find_first_of s d npos = npos /\ find_first_not_of s d npos = npos.
Proof.
  intros Hlen. unfold find_first_of, find_first_not_of.
  destruct (Z.ltb_spec npos (Z.of_nat (length s))); [lia|]. auto.
Qed.

Lemma substr_at pre t rest pos count :
  pos = Z.of_nat (length pre) ->
  Z.min count (Z.of_nat (length (t ++ rest))) = Z.of_nat (length t) ->
  substr (pre ++ t ++ rest) pos count = Some t.
Proof.
  intros -> Hmin. unfold substr. rewrite length_app.
  destruct (Z.ltb_spec (Z.of_nat (length pre + length (t ++ rest)))
                       (Z.of_nat (length pre))); [lia|].
  f_equal. rewrite Nat2Z.id, drop_app_length.
  replace (Z.of_nat (length pre + length (t ++ rest)) - Z.of_nat (length pre))
    with (Z.of_nat (length (t ++ rest))) by lia.
  rewrite Hmin, Nat2Z.id. apply take_app_length.
Qed.

(** The loop, entered at the end of a prefix [pre] of the input. *)
Lemma Tokenize_from d fuel :
  forall suf pre acc,
    (length suf <= fuel)%nat ->
    Z.of_nat (length (pre ++ suf)) < npos ->
    exists toks,
      Tokenize_while fuel (pre ++ suf) d
        (find_first_not_of (pre ++ suf) d (Z.of_nat (length pre)))
        (find_first_of (pre ++ suf) d
           (find_first_not_of (pre ++ suf) d (Z.of_nat (length pre))))
        acc
      = Finished (acc ++ toks)%list
      /\ tokens_of d suf toks.
Proof.
  induction fuel as [|fuel IH]; intros suf pre acc Hfuel Hlen.
  - destruct suf; [|cbn in Hfuel; lia].
    rewrite find_first_not_of_at. cbn [find_if].
    destruct (find_at_npos (pre ++ []) d Hlen) as [-> _].
    exists []. rewrite !app_nil_r. split; [reflexivity|]. by constructor.
  - destruct (span (fun c => negb (is_any_of d c)) suf)
      as (ds & suf' & -> & Hds & Hsuf').
    assert (Forall (fun c => c ∈ d) ds) as Hds'.
    { eapply Forall_impl; [exact Hds|]. intros c Hc.
      apply is_any_of_true. by apply negb_false_iff. }
    rewrite find_first_not_of_at, find_if_skip by assumption.
    destruct Hsuf' as [->|(c & l'' & -> & Hc)].
    + cbn [find_if].
      destruct (find_at_npos (pre ++ ds ++ []) d Hlen) as [-> _].
      exists []. rewrite !app_nil_r. split; [|by constructor].
      destruct fuel; reflexivity.
    + destruct (span (is_any_of d) (c :: l'')) as (t & rest & Heq & Ht & Hrest).
      assert (t <> []) as Htne.
      { intros ->. cbn in Heq. subst rest.
        destruct Hrest as [?|(c' & ? & Hr & Hc')]; [discriminate|].
        injection Hr as <- <-. rewrite Hc' in Hc. discriminate. }
      assert (Forall (fun c => c ∉ d) t) as Ht'.
      { eapply Forall_impl; [exact Ht|]. intros ? ?. by apply is_any_of_false. }
      rewrite Heq in *. clear Heq c l'' Hc.
      rewrite !length_app in Hlen, Hfuel.
      set (lastPos := Z.of_nat (length pre) + Z.of_nat (length ds)).
      assert (lastPos = Z.of_nat (length (pre ++ ds))) as HlastPos
          by (rewrite length_app; lia).
      assert (lastPos = Z.of_nat (length pre) + Z.of_nat (length ds)) as HlastPos'
          by reflexivity.
      clearbody lastPos.
      replace (pre ++ ds ++ t ++ rest)%list with ((pre ++ ds) ++ t ++ rest)%list
        by (rewrite <- app_assoc; reflexivity).
      cbn [find_if].
      assert (find_if (fun c => negb (is_any_of d c)) (t ++ rest) lastPos = lastPos)
        as ->.
      { destruct t as [|c t]; [congruence|]. cbn [app find_if].
        inversion Ht as [|? ? Hc]; subst. rewrite Hc. reflexivity. }
      rewrite HlastPos, find_first_of_at, find_if_skip by assumption.
      rewrite <- HlastPos.
      cbn [Tokenize_while].
      assert ((npos =? lastPos) = false) as HnlastPos by (apply Z.eqb_neq; lia).
      rewrite HnlastPos, orb_true_r.
      unfold npos in Hlen.
      destruct Hrest as [->|(c' & rest' & -> & Hc')].
      * (* the token runs to the end of the input *)
        cbn [find_if]. rewrite (substr_at _ _ _ _ _ HlastPos).
        2:{ rewrite app_nil_r. unfold to_size_t, npos.
            rewrite ?length_app in Hlen. cbn [length] in Hlen.
            rewrite Z.mod_small by lia. lia. }
        cbv zeta.
        destruct (find_at_npos ((pre ++ ds) ++ t ++ []) d) as [H1 H2].
        { unfold npos. rewrite !length_app. rewrite ?length_app in Hlen.
          cbn [length] in *. lia. }
        rewrite H2, H1.
        exists [t]. split.
        -- destruct fuel; reflexivity.
        -- apply tokens_of_token; auto; [discriminate|].
           apply tokens_of_done. constructor.
      * (* a delimiter follows the token *)
        cbn [find_if]. rewrite Hc'.
        rewrite (substr_at _ _ _ _ _ HlastPos).
        2:{ unfold to_size_t. rewrite length_app.
            replace (lastPos + Z.of_nat (length t) - lastPos)
              with (Z.of_nat (length t)) by lia.
            rewrite ?length_app in Hlen. cbn [length] in *.
            rewrite Z.mod_small by lia. lia. }
        cbv zeta.
        replace (lastPos + Z.of_nat (length t))
          with (Z.of_nat (length ((pre ++ ds) ++ t)))
          by (rewrite !length_app; lia).
        replace ((pre ++ ds) ++ t ++ c' :: rest')%list
          with (((pre ++ ds) ++ t) ++ c' :: rest')%list
          by (rewrite <- !app_assoc; reflexivity).
        destruct (IH (c' :: rest') ((pre ++ ds) ++ t)%list (acc ++ [t])%list)
          as (toks & -> & Htoks).
        { destruct t; [congruence|]. cbn [length] in *. lia. }
        { unfold npos. rewrite !length_app. rewrite ?length_app in Hlen.
          cbn [length] in *. lia. }
        exists (t :: toks). split.
        -- rewrite <- app_assoc. reflexivity.
        -- apply tokens_of_token; auto.
           intros c0 Hc0. injection Hc0 as <-. by apply is_any_of_true.
Qed.

Lemma tokens_of_unique d s toks1 toks2 :
  tokens_of d s toks1 -> tokens_of d s toks2 -> toks1 = toks2.
Proof.
  intros H1. revert toks2.
  induction H1 as [ds Hds|ds t rest toks Hds Htne Ht Hrest Htoks IH]; intros toks2 H2.
  - inversion H2 as [|ds' t' rest' toks' Hds' Htne' Ht' Hrest' Htoks' Heq]; [reflexivity|].
    subst. destruct t' as [|c t']; [congruence|].
    apply Forall_app in Hds as [_ Hc]. inversion Hc as [|? ? Hin]; subst.
    inversion Ht'; subst. contradiction.
  - inversion H2 as [ds' Hds' Heq|ds' t' rest' toks' Hds' Htne' Ht' Hrest' Htoks' Heq].
    + subst. destruct t as [|c t]; [congruence|].
      apply Forall_app in Hds' as [_ Hc]. inversion Hc as [|? ? Hin]; subst.
      inversion Ht; subst. contradiction.
    + destruct (span_unique (fun c => negb (is_any_of d c)) ds' ds
                            (t' ++ rest') (t ++ rest) Heq) as [-> Heq'].
      * eapply Forall_impl; [exact Hds'|]. intros c Hc.
        apply negb_false_iff. by apply is_any_of_true.
      * eapply Forall_impl; [exact Hds|]. intros c Hc.
        apply negb_false_iff. by apply is_any_of_true.
      * intros c Hc. destruct t' as [|c' t']; [congruence|].
        injection Hc as <-. inversion Ht'; subst.
        apply negb_true_iff. by apply is_any_of_false.
      * intros c Hc. destruct t as [|c' t]; [congruence|].
        injection Hc as <-. inversion Ht; subst.
        apply negb_true_iff. by apply is_any_of_false.
      * destruct (span_unique (is_any_of d) t' t rest' rest Heq') as [-> ->].
        -- eapply Forall_impl; [exact Ht'|]. intros c Hc. by apply is_any_of_false.
        -- eapply Forall_impl; [exact Ht|]. intros c Hc. by apply is_any_of_false.
        -- intros c Hc. apply is_any_of_true. auto.
        -- intros c Hc. apply is_any_of_true. auto.
        -- f_equal. by apply IH.
Qed.

Lemma filter_delimiters d ds :
  Forall (fun c => c ∈ d) ds -> filter (fun c => c ∉ d) ds = [].
Proof.
  induction 1 as [|c ds Hc Hds IH]; [reflexivity|].
  rewrite filter_cons_False by auto. exact IH.
Qed.

Lemma filter_token d t :
  Forall (fun c => c ∉ d) t -> filter (fun c => c ∉ d) t = t.
Proof.
  induction 1 as [|c t Hc Ht IH]; [reflexivity|].
  rewrite filter_cons_True by auto. by rewrite IH.
Qed.

Lemma tokens_of_concat d s toks :
  tokens_of d s toks -> concat toks = filter (fun c => c ∉ d) s.
Proof.
  induction 1 as [ds Hds|ds t rest toks Hds Htne Ht Hrest Htoks IH].
  - by rewrite filter_delimiters.
  - cbn [concat]. rewrite !filter_app, filter_delimiters, filter_token, IH by assumption.
    reflexivity.
Qed.

Lemma tokens_of_Forall d s toks :
  tokens_of d s toks -> Forall (fun t => t <> [] /\ Forall (fun c => c ∉ d) t) toks.
Proof. induction 1; constructor; auto. Qed.

Lemma tokens_of_single d t :
  t <> [] -> Forall (fun c => c ∉ d) t -> tokens_of d t [t].
Proof.
  intros Htne Ht.
  assert (tokens_of d ([] ++ t ++ []) [t]) as H.
  { apply tokens_of_token; auto; [discriminate|]. apply tokens_of_done. constructor. }
  cbn in H. by rewrite app_nil_r in H.
Qed.

Lemma tokens_of_delimiter_first d c s toks :
  c ∈ d -> tokens_of d s toks -> tokens_of d (c :: s) toks.
Proof.
  intros Hc H. inversion H as [ds Hds|ds t rest toks' Hds Htne Ht Hrest Htoks]; subst.
  - apply tokens_of_done. by constructor.
  - change (c :: ds ++ t ++ rest)%list with ((c :: ds) ++ t ++ rest)%list.
    apply tokens_of_token; auto.
Qed.

Lemma join_cons c t toks :
  toks <> [] -> join c (t :: toks) = (t ++ c :: join c toks)%list.
Proof. destruct toks; [congruence|reflexivity]. Qed.

Lemma tokens_of_join d c toks :
  c ∈ d ->
  Forall (fun t => t <> [] /\ Forall (fun c => c ∉ d) t) toks ->
  tokens_of d (join c toks) toks.
Proof.
  intros Hc Htoks. induction Htoks as [|t toks [Htne Ht] Htoks IH].
  - apply tokens_of_done. constructor.
  - destruct (decide (toks = [])) as [->|Hne].
    + cbn [join]. by apply tokens_of_single.
    + rewrite join_cons by assumption.
      change (t ++ c :: join c toks)%list with ([] ++ t ++ c :: join c toks)%list.
      apply tokens_of_token; auto.
      * intros a Ha. injection Ha as <-. exact Hc.
      * by apply tokens_of_delimiter_first.
Qed.

(** X1. For an input shorter than [npos] and a bound of at least its length,
    [Tokenize] finishes (no exception of [substr], the bound not used up)
    and has appended to [tokens], which it keeps, the tokens of the input:
    the maximal runs of characters that are not delimiters, in order, each
    cut at the surrounding delimiters or the ends of the input; there is one
    such list only. *)
Theorem Tokenize_appends_the_tokens fuel str_in tokens delimiters :
  Z.of_nat (length str_in) < npos ->
  (length str_in <= fuel)%nat ->
  exists new,
    Tokenize fuel str_in tokens delimiters = Finished (tokens ++ new)%list
    /\ tokens_of delimiters str_in new
    /\ forall new', tokens_of delimiters str_in new' -> new' = new.
Proof.
  intros Hlen Hfuel.
  destruct (Tokenize_from delimiters fuel str_in [] tokens Hfuel Hlen)
    as (new & Hrun & Hnew).
  exists new. split; [exact Hrun|]. split; [exact Hnew|].
  intros new' Hnew'. by apply (tokens_of_unique delimiters str_in).
Qed.

(** X2. The tokens appended hold the characters of the input that are not
    delimiters, all of them and in order; no token is empty and no token
    holds a delimiter. *)
Theorem Tokenize_keeps_the_other_characters fuel str_in tokens delimiters :
  Z.of_nat (length str_in) < npos ->
  (length str_in <= fuel)%nat ->
  exists new,
    Tokenize fuel str_in tokens delimiters = Finished (tokens ++ new)%list
    /\ concat new = filter (fun c => c ∉ delimiters) str_in
    /\ Forall (fun t => t <> [] /\ Forall (fun c => c ∉ delimiters) t) new.
Proof.
  intros Hlen Hfuel.
  destruct (Tokenize_from delimiters fuel str_in [] tokens Hfuel Hlen)
    as (new & Hrun & Hnew).
  exists new. split; [exact Hrun|].
  split; [by apply tokens_of_concat | by eapply tokens_of_Forall].
Qed.

(** X3. [Tokenize] leaves [tokens] as it was exactly when the input holds
    delimiters only, the empty input included. *)
Theorem Tokenize_appends_nothing_iff fuel str_in tokens delimiters :
  Z.of_nat (length str_in) < npos ->
  (length str_in <= fuel)%nat ->
  Tokenize fuel str_in tokens delimiters = Finished tokens
  <-> Forall (fun c => c ∈ delimiters) str_in.
Proof.
  intros Hlen Hfuel.
  destruct (Tokenize_from delimiters fuel str_in [] tokens Hfuel Hlen)
    as (new & Hrun & Hnew).
  change (Tokenize fuel str_in tokens delimiters = Finished (tokens ++ new)%list) in Hrun.
  rewrite Hrun. split.
  - intros H. injection H as H.
    rewrite <- (app_nil_r tokens) in H at 2. apply app_inv_head in H. subst new.
    inversion Hnew; assumption.
  - intros Hall.
    rewrite (tokens_of_unique delimiters str_in new [] Hnew (tokens_of_done _ _ Hall)).
    by rewrite app_nil_r.
Qed.

(** X4. A non-empty input without a delimiter is appended whole, as one
    token: [pos] is [npos] on entry, and [substr] is called with the count
    [npos - 0]. *)
Theorem Tokenize_without_delimiter fuel str_in tokens delimiters :
  Z.of_nat (length str_in) < npos ->
  (length str_in <= fuel)%nat ->
  str_in <> [] ->
  Forall (fun c => c ∉ delimiters) str_in ->
  Tokenize fuel str_in tokens delimiters = Finished (tokens ++ [str_in])%list.
Proof.
  intros Hlen Hfuel Hne Hnone.
  destruct (Tokenize_from delimiters fuel str_in [] tokens Hfuel Hlen)
    as (new & Hrun & Hnew).
  change (Tokenize fuel str_in tokens delimiters = Finished (tokens ++ new)%list) in Hrun.
  rewrite Hrun. do 2 f_equal.
  apply (tokens_of_unique delimiters str_in); [assumption|].
  by apply tokens_of_single.
Qed.

(** X5. Tokens that are non-empty and free of delimiters, joined by one
    delimiter, are what [Tokenize] appends for the joined string. *)
Theorem Tokenize_join_round_trip fuel c toks tokens delimiters :
  Z.of_nat (length (join c toks)) < npos ->
  (length (join c toks) <= fuel)%nat ->
  c ∈ delimiters ->
  Forall (fun t => t <> [] /\ Forall (fun c => c ∉ delimiters) t) toks ->
  Tokenize fuel (join c toks) tokens delimiters = Finished (tokens ++ toks)%list.
Proof.
  intros Hlen Hfuel Hc Htoks.
  destruct (Tokenize_from delimiters fuel (join c toks) [] tokens Hfuel Hlen)
    as (new & Hrun & Hnew).
  change (Tokenize fuel (join c toks) tokens delimiters
          = Finished (tokens ++ new)%list) in Hrun.
  rewrite Hrun. do 2 f_equal.
  apply (tokens_of_unique delimiters (join c toks)); [assumption|].
  by apply tokens_of_join.
Qed.
End TokenizeProofs.

(** ** [parse_my_options] *)

Section ParseProofs.
Variable atoi : string -> Z.

Lemma parse_my_options_before_the_end rank answers v console :
  parse_my_options atoi rank answers v console
  = parse_my_options atoi rank (before_the_end answers) v console.
Proof.
  revert v console; induction answers as [|[opt optarg] answers IH]; intros v console;
    [reflexivity|].
  cbn [parse_my_options before_the_end].
  destruct (opt =? -1) eqn:E; [reflexivity|].
  cbn [parse_my_options]. rewrite E.
  destruct (parse_my_option atoi rank opt optarg v console). apply IH.
Qed.

Lemma last_cons_case {A} (x : A) l :
  last (x :: l) = match last l with Some y => Some y | None => Some x end.
Proof.
  destruct l as [|a l]; [reflexivity|].
  change (last (x :: a :: l)) with (last (a :: l)).
  destruct (last (a :: l)) eqn:E; [reflexivity|].
  apply last_None in E. discriminate E.
Qed.

Ltac case_opt opt :=
  destruct (Z.eqb_spec opt 97) as [->|?];
  [|destruct (Z.eqb_spec opt 112) as [->|?];
    [|destruct (Z.eqb_spec opt 113) as [->|?];
      [|destruct (Z.eqb_spec opt 104) as [->|?];
        [|destruct (Z.eqb_spec opt 108) as [->|?]]]]].

Lemma parse_my_option_unrecognised rank opt optarg v console :
  recognised opt = false -> parse_my_option atoi rank opt optarg v console = (v, console).
Proof.
  unfold recognised; intros H.
  case_opt opt; try discriminate H.
  unfold parse_my_option.
  destruct opt as [|p|p]; try reflexivity.
  do 7 (destruct p as [p|p|]; try reflexivity); congruence.
Qed.

(** X6. After [parse_my_options], each of the four [unsigned] variables
    holds the number of the last argument given for it before the end of
    the options, converted to [unsigned], or the value it had when there is
    none; [Adaptive] is switched on by [-adaptive] and never switched
    off. *)
Theorem parse_my_options_last_occurrence_wins rank answers v console :
  fst (parse_my_options atoi rank answers v console)
  = {| Parsed.Adaptive := Parsed.Adaptive v || is_given 97 answers;
       Parsed.p_1 := given_or atoi 112 answers (Parsed.p_1 v);
       Parsed.p_2 := given_or atoi 113 answers (Parsed.p_2 v);
       Parsed.h_1 := given_or atoi 104 answers (Parsed.h_1 v);
       Parsed.h_2 := given_or atoi 108 answers (Parsed.h_2 v) |}.
Proof.
  unfold given_or, last_given, is_given.
  revert v console; induction answers as [|[opt optarg] answers IH]; intros v console.
  - destruct v; cbn. rewrite orb_false_r. reflexivity.
  - cbn [parse_my_options before_the_end].
    destruct (opt =? -1) eqn:E.
    + destruct v; cbn. rewrite orb_false_r. reflexivity.
    + destruct (parse_my_option atoi rank opt optarg v console) as [v' console'] eqn:Hstep.
      rewrite IH. clear IH.
      cbn [omap list_omap existsb fst snd].
      case_opt opt; cbn [Z.eqb Pos.eqb orb] in *;
        try (rewrite parse_my_option_unrecognised in Hstep
              by (unfold recognised;
                  repeat match goal with
                         | H : opt <> _ |- _ => apply Z.eqb_neq in H; rewrite H
                         end; reflexivity);
             repeat match goal with
                    | H : opt <> _ |- _ => apply Z.eqb_neq in H; rewrite H
                    end);
        try (cbn in Hstep);
        injection Hstep as <- <-; cbn [Parsed.Adaptive Parsed.p_1 Parsed.p_2 Parsed.h_1 Parsed.h_2];
        rewrite ?last_cons_case, ?orb_true_r, ?orb_false_l;
        repeat match goal with
               | |- context [last ?l] => destruct (last l)
               end; reflexivity.
Qed.

Lemma parse_my_option_console rank opt optarg v console :
  exists lines,
    snd (parse_my_option atoi rank opt optarg v console) = (console ++ lines)%list
    /\ length lines = if (rank =? 0) && recognised opt then 1%nat else 0%nat.
Proof.
  destruct (recognised opt) eqn:Hopt.
  - unfold recognised in Hopt.
    case_opt opt; cbn in Hopt; try discriminate Hopt;
      cbn [parse_my_option snd]; unfold rank_0_says;
      (destruct (rank =? 0);
       [eexists; split; [reflexivity|reflexivity]
       |exists []; rewrite app_nil_r; split; reflexivity]).
  - rewrite parse_my_option_unrecognised by assumption.
    exists []. rewrite app_nil_r, andb_false_r. split; reflexivity.
Qed.

(** X7. [parse_my_options] only appends to the console: one line per
    answer that the [switch] has a case for on rank 0, nothing on the other
    ranks. *)
Theorem parse_my_options_reports_on_rank_0_only rank answers v console :
  exists lines,
    snd (parse_my_options atoi rank answers v console) = (console ++ lines)%list
    /\ length lines
       = if rank =? 0
         then length (List.filter (fun a => recognised (fst a)) (before_the_end answers))
         else 0%nat.
Proof.
  revert v console; induction answers as [|[opt optarg] answers IH]; intros v console.
  - exists []. rewrite app_nil_r. destruct (rank =? 0); split; reflexivity.
  - cbn [parse_my_options before_the_end].
    destruct (opt =? -1) eqn:E.
    + exists []. rewrite app_nil_r. destruct (rank =? 0); split; reflexivity.
    + destruct (parse_my_option_console rank opt optarg v console) as (l1 & H1 & Hl1).
      destruct (parse_my_option atoi rank opt optarg v console) as [v' console'].
      cbn [snd] in H1. subst console'.
      destruct (IH v' (console ++ l1)%list) as (l2 & H2 & Hl2).
      exists (l1 ++ l2)%list. rewrite H2, <- app_assoc. split; [reflexivity|].
      rewrite length_app, Hl1, Hl2.
      cbn [List.filter fst].
      destruct (rank =? 0), (recognised opt); reflexivity.
Qed.

(** X8. The answers the [switch] has no case for (['?'] for an unknown
    option, for one) and everything after the first [-1] change nothing:
    the values and the console are those of the run on the recognised
    answers alone. *)
Theorem parse_my_options_skips_unrecognised rank answers v console :
  parse_my_options atoi rank answers v console
  = parse_my_options atoi rank
      (List.filter (fun a => recognised (fst a)) (before_the_end answers)) v console.
Proof.
  revert v console; induction answers as [|[opt optarg] answers IH]; intros v console;
    [reflexivity|].
  cbn [parse_my_options before_the_end].
  destruct (opt =? -1) eqn:E; [reflexivity|].
  cbn [List.filter fst].
  destruct (recognised opt) eqn:Hopt.
  - cbn [parse_my_options]. rewrite E.
    destruct (parse_my_option atoi rank opt optarg v console). apply IH.
  - rewrite parse_my_option_unrecognised by assumption. apply IH.
Qed.
End ParseProofs.

(** ** [Solve_Linear_Systam] and [Setup_System] *)

Ltac unfold_stages :=
  unfold pipeline, stage_create, stage_assemble, stage_finalize_begin,
    stage_finalize_end, stage_finalize_vectors, stage_configure, stage_solve,
    stage_record, stage_scatter, stage_post_solve, stage_destroy, milestone, called.

Section DriverProperties.
Context {scalar : Type}.
Variable zero : scalar.
Implicit Types (e : Env (scalar := scalar)) (s : State (scalar := scalar)).

(** X9. The value [Solve_Linear_Systam] returns is the code of
    [MatAssemblyBegin] when that is not [0], and the code of
    [MatAssemblyEnd] otherwise; no other call has a say. *)
Theorem Solve_Linear_Systam_returns_the_assembly_code e s :
  fst (call_function (Solve_Linear_Systam zero e) s)
  = if ierr e (Call.MatAssemblyBegin global_mat MAT_FINAL_ASSEMBLY) =? 0
    then ierr e (Call.MatAssemblyEnd global_mat MAT_FINAL_ASSEMBLY)
    else ierr e (Call.MatAssemblyBegin global_mat MAT_FINAL_ASSEMBLY).
Proof.
  destruct (Solve_Linear_Systam_runs zero e s) as (p' & arr & ->).
  unfold Solve_outcome.
  destruct (_ =? 0); [|reflexivity].
  destruct (Z.eqb_spec (ierr e (Call.MatAssemblyEnd global_mat MAT_FINAL_ASSEMBLY)) 0)
    as [->|]; reflexivity.
Qed.

(** X10. Every invocation only adds to the trace and assembles the global
    system once; it calls [KSPSolve] once, [Calculate_Internal_Unknowns]
    once and the five destroy calls exactly when both assembly checks pass,
    and none of them otherwise. *)
Theorem solver_reached_iff_assembly_succeeds e s :
  exists new,
    trace (snd (call_function (Solve_Linear_Systam zero e) s)) = (trace s ++ new)%list
    /\ List.filter is_Assemble_Globals new = [Assemble_Globals]
    /\ List.filter is_KSPSolve new
       = (if assembly_passed e
          then [called e (Call.KSPSolve TheSolver RHS_vec solution_vec)] else [])
    /\ length (List.filter is_Calculate_Internal_Unknowns new)
       = (if assembly_passed e then 1 else 0)%nat
    /\ List.filter is_Destroy new = (if assembly_passed e then stage_destroy e else []).
Proof.
  destruct (Solve_Linear_Systam_runs zero e s) as (p' & arr & ->).
  unfold Solve_outcome, assembly_passed.
  destruct (_ =? 0); [destruct (_ =? 0)|];
    cbn [snd trace andb]; eexists; (split; [reflexivity|]); unfold_stages;
    destruct (comm_rank e =? 0); repeat split; reflexivity.
Qed.

(** X11. With every PETSc call succeeding, the objects live after the
    invocation are those live before it, less the matrix and the four
    vectors it destroys, together with the Krylov solver, the two index
    sets and the scatter context, which it creates and never destroys. *)
Theorem solver_objects_are_never_destroyed e s :
  petsc_ok e ->
  live (petsc (snd (call_function (Solve_Linear_Systam zero e) s)))
  = {[TheSolver; IS_from; IS_to; VecScatter_scatter]}
      ∪ (live (petsc s) ∖ list_to_set (Vec_x :: global_system)).
Proof.
  intros Hok. rewrite Solve_Linear_Systam_ok by assumption.
  cbn [snd petsc Solve_objects live]. unfold global_system.
  apply set_eq. intros o.
  set_unfold. destruct o; intuition congruence.
Qed.

(** X12. With every PETSc call succeeding, the solve runs with the solver
    type of [-ksp_type] and the relative tolerance of [-ksp_rtol] when these
    are given (the options are read after the compiled-in values are set),
    and with the aggregation variant of GAMG and one smoothing step. *)
Theorem solver_type_and_tolerance_follow_the_options e s :
  petsc_ok e ->
  exists cfg,
    solved_with (petsc (snd (call_function (Solve_Linear_Systam zero e) s))) = Some cfg
    /\ (forall ty, opt_ksp_type (options e) = Some ty -> ksp_type cfg = Some ty)
    /\ (forall rtol, opt_ksp_rtol (options e) = Some rtol -> ksp_rtol cfg = rtol)
    /\ pc_gamg_type cfg = Some PCGAMGAGG
    /\ pc_gamg_nsmooths cfg = Some 1.
Proof.
  intros Hok. rewrite Solve_Linear_Systam_ok by assumption.
  exists (configured e). split; [reflexivity|]. unfold configured. cbn.
  repeat split; intros ? ->; reflexivity.
Qed.

Lemma writes_to_app stream (t1 t2 : list (Event (scalar := scalar))) :
  writes_to stream (t1 ++ t2) = (writes_to stream t1 ++ writes_to stream t2)%list.
Proof. apply List.filter_app. Qed.

(** X13. On rank 0, an invocation that passes the assembly checks adds
    eight lines to the execution-time log, in this order: entering and
    finishing assembly, entering the solver, the stopping reason, the
    number of iterations, finishing the solver, entering and finishing the
    local solver; and one line to [cout], the three elapsed times. *)
Theorem log_of_a_successful_invocation_on_rank_0 e s :
  comm_rank e = 0 -> assembly_ok e ->
  writes_to Execution_Time (trace (snd (call_function (Solve_Linear_Systam zero e) s)))
  = (writes_to Execution_Time (trace s) ++ log_of_success e (clock s))%list
  /\ writes_to cout (trace (snd (call_function (Solve_Linear_Systam zero e) s)))
     = (writes_to cout (trace s)
        ++ [Write cout
              (show_elapsed e (wall_clock e (1 + clock s)) (wall_clock e (2 + clock s))
               ++ " "
               ++ show_elapsed e (wall_clock e (5 + clock s)) (wall_clock e (7 + clock s))
               ++ " "
               ++ show_elapsed e (wall_clock e (9 + clock s)) (wall_clock e (10 + clock s))
               ++ endl)%string])%list.
Proof.
  intros Hr [Hb He].
  destruct (Solve_Linear_Systam_runs zero e s) as (p' & arr & ->).
  unfold Solve_outcome. rewrite Hb, He. cbn [Z.eqb snd trace].
  rewrite !writes_to_app. unfold_stages. rewrite Hr. cbn [Z.eqb].
  split; reflexivity.
Qed.

(** X14. On rank 0, an invocation in which an assembly check fails leaves
    the first three of these lines in the execution-time log, the last
    being "Entering solver", with no line that tells of the failure, and
    prints nothing to [cout]. *)
Theorem log_of_a_failed_assembly_on_rank_0 e s :
  comm_rank e = 0 -> assembly_passed e = false ->
  writes_to Execution_Time (trace (snd (call_function (Solve_Linear_Systam zero e) s)))
  = (writes_to Execution_Time (trace s) ++ take 3 (log_of_success e (clock s)))%list
  /\ writes_to cout (trace (snd (call_function (Solve_Linear_Systam zero e) s)))
     = writes_to cout (trace s).
Proof.
  intros Hr Hfail.
  destruct (Solve_Linear_Systam_runs zero e s) as (p' & arr & ->).
  unfold Solve_outcome. unfold assembly_passed in Hfail.
  destruct (_ =? 0); [destruct (_ =? 0); [discriminate|]|];
    cbn [snd trace]; rewrite !writes_to_app; unfold_stages; rewrite Hr; cbn [Z.eqb];
    split; cbn; rewrite ?app_nil_r; reflexivity.
Qed.

Lemma wp_VecGetArray_failed {C} e v (k : option (list scalar) -> M C) Q s :
  ierr e (Call.VecGetArray v) <> 0 ->
  wp (k None) Q {| petsc := petsc s; clock := clock s;
                   trace := (trace s ++ [Petsc (Call.VecGetArray v)
                                               (ierr e (Call.VecGetArray v))])%list |} ->
  wp (VecGetArray e v ≫= k) Q s.
Proof.
  intros Hc H. unfold wp, mbind, M_bind, VecGetArray.
  apply Z.eqb_neq in Hc. rewrite Hc. exact H.
Qed.

(** X15. When [VecGetArray] fails after the assembly checks have passed,
    the invocation goes on all the same: it runs the whole pipeline, hands
    [Calculate_Internal_Unknowns] the pointer that was never set, and
    returns [0]. *)
Theorem failed_VecGetArray_reaches_the_post_solve e s :
  assembly_ok e -> ierr e (Call.VecGetArray Vec_x) <> 0 ->
  exists p',
    call_function (Solve_Linear_Systam zero e) s
    = (0, {| petsc := p'; clock := clock_readings e (clock s) 12 6;
             trace := (trace s ++ pipeline e (clock s) (ksp_converged_reason e) None)%list |}).
Proof.
  intros [Hb He] Hfail.
  apply wp_call_function.
  unfold Solve_Linear_Systam, when, clock_readings. unfold_stages. unfold_calls.
  destruct (comm_rank e =? 0) eqn:Hr.
  - repeat wp_step.
    apply wp_CHKERRQ; [intros _|intros Hne; contradiction].
    repeat wp_step.
    apply wp_CHKERRQ; [intros _|intros Hne; contradiction].
    repeat first [wp_plain
                 | lazymatch goal with
                   | |- wp (mbind _ (VecGetArray _ _)) _ _ =>
                       apply wp_VecGetArray_failed; [exact Hfail|]
                   | |- wp (mbind _ (petsc_call _ _ _)) _ _ => apply wp_call; intros ?p
                   end; cbn [petsc clock trace] ].
    eexists. norm_trace. reflexivity.
  - repeat wp_step.
    apply wp_CHKERRQ; [intros _|intros Hne; contradiction].
    repeat wp_step.
    apply wp_CHKERRQ; [intros _|intros Hne; contradiction].
    repeat first [wp_plain
                 | lazymatch goal with
                   | |- wp (mbind _ (VecGetArray _ _)) _ _ =>
                       apply wp_VecGetArray_failed; [exact Hfail|]
                   | |- wp (mbind _ (petsc_call _ _ _)) _ _ => apply wp_call; intros ?p
                   end; cbn [petsc clock trace] ].
    eexists. norm_trace. reflexivity.
Qed.

Lemma petsc_calls_app (t1 t2 : list (Event (scalar := scalar))) :
  petsc_calls (t1 ++ t2) = (petsc_calls t1 ++ petsc_calls t2)%list.
Proof. apply omap_app. Qed.

(** X16. [comm_rank] is read for output only: two invocations that differ
    in [comm_rank] and in nothing else (the calls return the same codes, the
    sizes, the indices and the options are the same) return the same value
    and make the same PETSc calls, with the same arguments, in the same
    order.  (Nothing is said of two ranks whose calls return different
    codes: where an assembly check fails on one rank only, that rank
    returns early and makes fewer calls than the others.) *)
Theorem comm_rank_decides_on_output_only e r s :
  fst (call_function (Solve_Linear_Systam zero (with_rank r e)) s)
  = fst (call_function (Solve_Linear_Systam zero e) s)
  /\ petsc_calls
       (trace (snd (call_function (Solve_Linear_Systam zero (with_rank r e)) s)))
     = petsc_calls (trace (snd (call_function (Solve_Linear_Systam zero e) s))).
Proof.
  destruct (Solve_Linear_Systam_runs zero e s) as (p' & arr & ->).
  destruct (Solve_Linear_Systam_runs zero (with_rank r e) s) as (p'' & arr' & ->).
  unfold Solve_outcome. cbn [ierr with_rank].
  destruct (_ =? 0); [destruct (_ =? 0)|]; cbn [fst snd trace];
    (split; [reflexivity|]);
    rewrite !petsc_calls_app; f_equal; unfold_stages; cbn [comm_rank with_rank];
    destruct (r =? 0), (comm_rank e =? 0); reflexivity.
Qed.

Ltac run_Setup :=
  unfold Setup_System, when, put, emit, currentDateTime, log, tick;
  cbv beta iota zeta delta [mbind M_bind mret M_ret petsc clock trace fst snd].

(** X17. On every rank and for every size of the communicator,
    [Setup_System] refines the grid with the refinement it is given and then
    counts the globals, once each and in this order, does nothing else but
    output, and touches no PETSc object. *)
Theorem Setup_System_refines_then_counts_on_every_rank e refinement s :
  non_writes (trace (snd (Setup_System e refinement s)))
  = (non_writes (trace s) ++ [Refine_Grid refinement; Count_Globals])%list
  /\ petsc (snd (Setup_System e refinement s)) = petsc s.
Proof.
  run_Setup.
  destruct (comm_rank e =? comm_size e), (comm_rank e =? 0); cbn [snd trace petsc];
    unfold non_writes; rewrite !List.filter_app; cbn; rewrite ?app_nil_r, <- ?app_assoc;
    split; reflexivity.
Qed.
End DriverProperties.

(** ** [main] *)

Section MainProperties.
Context {scalar : Type}.
Variable zero : scalar.
Implicit Types (env : MainEnv (scalar := scalar)) (s : MainState (scalar := scalar)).

Lemma for_unsigned_empty {S : Type} fuel lo hi (body : Z -> S -> option S) (s0 : S) :
  hi <= lo -> fuel <> O -> for_unsigned fuel lo hi body s0 = Some s0.
Proof.
  intros Hle Hfuel. destruct fuel; [congruence|]. cbn [for_unsigned].
  destruct (Z.ltb_spec lo hi); [lia|reflexivity].
Qed.

(** X18. When the final degree, as an [unsigned], is not above the
    starting degree (an empty or an inverted range), [main] constructs no
    solver and runs no refinement level: it goes through the prologue and
    the report on the face basis, finalizes and returns [0], with no PETSc
    object created. *)
Theorem main_runs_nothing_on_an_empty_range fuel env :
  fuel <> O ->
  to_unsigned (p_2_read env) <= to_unsigned (p_1_read env) ->
  main zero fuel env
  = Some (0, {| world := no_objects; time := 0%nat;
                main_trace := (prologue env ++ face_basis_reported env
                               ++ [SlepcFinalize])%list |}).
Proof.
  intros Hfuel Hle. rewrite main_decomposed. unfold main_loops.
  rewrite for_unsigned_empty by assumption.
  unfold record, prefixed. cbn [world time main_trace]. rewrite app_nil_r, <- app_assoc.
  reflexivity.
Qed.

(** A property of the trace that each pass through a loop body adds to. *)
Lemma for_unsigned_invariant (R : MainState -> MainState -> Prop)
      (body : Z -> MainState -> option MainState) :
  (forall s, R s s) -> (forall s1 s2 s3, R s1 s2 -> R s2 s3 -> R s1 s3) ->
  (forall i s s', body i s = Some s' -> R s s') ->
  forall fuel lo hi s s', for_unsigned fuel lo hi body s = Some s' -> R s s'.
Proof.
  intros Hrefl Htrans Hbody. induction fuel as [|fuel IH]; intros lo hi s s' H;
    [discriminate|].
  cbn [for_unsigned] in H. destruct (lo <? hi).
  - destruct (body lo s) as [s1|] eqn:Hs1; [|discriminate].
    eapply Htrans; [by eapply Hbody|by eapply IH].
  - injection H as <-. apply Hrefl.
Qed.

Lemma main_outputs_app (t1 t2 : list (MainEvent (scalar := scalar))) :
  main_outputs (t1 ++ t2) = (main_outputs t1 ++ main_outputs t2)%list.
Proof. apply List.filter_app. Qed.

Lemma level_body_outputs env p1 h1 s s' :
  level_body zero env p1 h1 s = Some s' -> same_outputs s s'.
Proof.
  unfold level_body, same_outputs. destruct (call_function _ _) as [code s1].
  intros H. injection H as <-. cbn [record leave main_trace].
  rewrite !main_outputs_app. cbn. rewrite !app_nil_r. reflexivity.
Qed.

Lemma degree_body_outputs fuel env threads Adaptive h_1 h_2 p1 s s' :
  degree_body zero fuel env threads Adaptive h_1 h_2 p1 s = Some s' -> same_outputs s s'.
Proof.
  unfold degree_body. destruct (for_unsigned _ _ _ _ _) as [s1|] eqn:Hloop; [|discriminate].
  intros H. injection H as <-.
  apply (for_unsigned_invariant same_outputs) in Hloop.
  - unfold same_outputs in *. cbn [record main_trace] in *.
    rewrite main_outputs_app, Hloop, main_outputs_app. cbn. rewrite !app_nil_r. reflexivity.
  - reflexivity.
  - unfold same_outputs. congruence.
  - intros i s2 s3. apply level_body_outputs.
Qed.

Lemma main_loops_outputs fuel env s1 :
  main_loops zero fuel env = Some s1 -> main_outputs (main_trace s1) = [].
Proof.
  unfold main_loops. intros Hloops.
  apply (for_unsigned_invariant same_outputs) in Hloops.
  - exact Hloops.
  - reflexivity.
  - unfold same_outputs. congruence.
  - intros i s2 s3. apply degree_body_outputs.
Qed.

(** X19. With enough fuel for the two loops, [main] returns [0] and its
    events are, in this order: the prologue, the report on the face basis
    (if any), the events of the two loops, and [SlepcFinalize].  All the
    steps of the loops are in the third part, and nothing in it is printed
    or truncated by [main] itself: what [main] prints or truncates, the
    help line and the two result files on rank 0 and the report, comes
    before the first step of the loops, and nothing after it. *)
Theorem main_prints_before_the_loops_only fuel env :
  (Z.to_nat (to_unsigned (p_2_read env) - to_unsigned (p_1_read env)) < fuel)%nat ->
  (Z.to_nat (to_unsigned (h_2_read env) - to_unsigned (h_1_read env)) < fuel)%nat ->
  exists s loops,
    main zero fuel env = Some (0, s)
    /\ main_trace s
       = (prologue env ++ face_basis_reported env ++ loops ++ [SlepcFinalize])%list
    /\ steps loops
       = outer_loop_spec (to_unsigned (p_1_read env)) (to_unsigned (p_2_read env))
                         (to_unsigned (h_1_read env)) (to_unsigned (h_2_read env))
    /\ steps (prologue env ++ face_basis_reported env) = []
    /\ main_outputs loops = []
    /\ main_outputs (prologue env ++ face_basis_reported env)
       = ((if rank env =? 0
           then [Main_cout (help_line ++ endl)%string;
                 Truncate_file "Convergence_Result.txt";
                 Truncate_file "Execution_Time.txt"]
           else [])
          ++ face_basis_reported env)%list.
Proof.
  intros Hfp Hfh.
  destruct (main_loops_steps zero fuel env Hfp Hfh) as (s1 & Hs1 & Hsteps).
  rewrite main_decomposed, Hs1.
  eexists _, (main_trace s1). split; [reflexivity|].
  cbn [record prefixed main_trace]. rewrite <- !app_assoc.
  split; [reflexivity|]. split; [exact Hsteps|].
  split; [rewrite steps_app, prologue_steps, face_basis_reported_steps; reflexivity|].
  split; [exact (main_loops_outputs fuel env s1 Hs1)|].
  assert (List.filter is_main_output (face_basis_reported env)
          = face_basis_reported env) as Hreport.
  { unfold face_basis_reported, face_basis_report.
    destruct (opt_face_basis _); [|reflexivity].
    destruct (bool_decide _); [reflexivity|]. destruct (rank env =? 0); reflexivity. }
  rewrite main_outputs_app. unfold main_outputs, prologue.
  destruct (rank env =? 0); cbn [app List.filter is_main_output];
    rewrite Hreport; reflexivity.
Qed.

(** Like [for_unsigned_steps], for any reading of the events. *)
Lemma for_unsigned_omap {X : Type} (read : MainEvent (scalar := scalar) -> option X)
      (body : Z -> MainState -> option MainState) (per : Z -> list X) hi :
  hi < 2 ^ 32 ->
  forall fuel lo s,
    0 <= lo ->
    (forall i s', lo <= i < hi ->
                  exists s'', body i s' = Some s'' /\
                              omap read (main_trace s'')
                              = (omap read (main_trace s') ++ per i)%list) ->
    (Z.to_nat (hi - lo) < fuel)%nat ->
    exists s'', for_unsigned fuel lo hi body s = Some s'' /\
                omap read (main_trace s'')
                = (omap read (main_trace s) ++ flat_map per (seqZ lo (hi - lo)))%list.
Proof.
  intros Hhi. induction fuel as [|fuel IH]; intros lo s Hlo Hbody Hfuel; [lia|].
  cbn [for_unsigned]. destruct (Z.ltb_spec lo hi) as [Hlt|Hge].
  - destruct (Hbody lo s) as (s1 & -> & Hs1); [lia|].
    assert (to_unsigned (lo + 1) = lo + 1) as ->.
    { unfold to_unsigned. apply Z.mod_small. lia. }
    destruct (IH (lo + 1) s1) as (s2 & -> & Hs2); [lia| |lia|].
    { intros i s' Hi. apply Hbody. lia. }
    exists s2. split; [reflexivity|].
    rewrite Hs2, Hs1, (seqZ_cons lo (hi - lo)) by lia. cbn [flat_map].
    replace (Z.pred (hi - lo)) with (hi - (lo + 1)) by lia.
    replace (Z.succ lo) with (lo + 1) by lia.
    rewrite <- app_assoc. reflexivity.
  - exists s. split; [reflexivity|].
    rewrite seqZ_nil by lia. cbn. rewrite app_nil_r. reflexivity.
Qed.

Lemma level_body_lives env p1 h1 s :
  exists s', level_body zero env p1 h1 s = Some s' /\
             lives (main_trace s') = (lives (main_trace s) ++ [])%list.
Proof.
  unfold level_body. destruct (call_function _ _) as [code s1].
  eexists. split; [reflexivity|].
  cbn [record leave main_trace]. unfold lives. rewrite !omap_app. cbn.
  rewrite !app_nil_r. reflexivity.
Qed.

Lemma degree_body_lives fuel env threads Adaptive h_1 h_2 p1 s :
  (Z.to_nat (to_unsigned h_2 - to_unsigned h_1) < fuel)%nat ->
  exists s', degree_body zero fuel env threads Adaptive h_1 h_2 p1 s = Some s' /\
             lives (main_trace s') = (lives (main_trace s) ++ [Born p1; Died])%list.
Proof.
  intros Hfuel. unfold degree_body.
  destruct (for_unsigned_omap life_of (level_body zero env p1) (fun _ => [])
              (to_unsigned h_2) (proj2 (to_unsigned_range h_2)) fuel (to_unsigned h_1)
              (record (Construct_Diffusion p1 (size env) (rank env) threads Adaptive) s)
              (proj1 (to_unsigned_range h_1))
              (fun i s' _ => level_body_lives env p1 i s') Hfuel)
    as (s1 & -> & Hs1).
  eexists. split; [reflexivity|].
  unfold lives in *. cbn [record main_trace] in *. rewrite omap_app, Hs1, omap_app.
  replace (flat_map (fun _ : Z => @nil Life) _) with (@nil Life)
    by (induction (seqZ _ _); auto).
  cbn. rewrite !app_nil_r, <- app_assoc. reflexivity.
Qed.

(** X20. With enough fuel for the two loops, [main] returns [0] and the
    solver objects it constructs live one at a time: one per degree of the
    range, in increasing order, each destroyed before the next one is
    constructed and the last one before [SlepcFinalize]. *)
Theorem one_solver_object_at_a_time fuel env :
  (Z.to_nat (to_unsigned (p_2_read env) - to_unsigned (p_1_read env)) < fuel)%nat ->
  (Z.to_nat (to_unsigned (h_2_read env) - to_unsigned (h_1_read env)) < fuel)%nat ->
  exists s,
    main zero fuel env = Some (0, s)
    /\ lives (main_trace s)
       = flat_map (fun p => [Born p; Died])
                  (seqZ (to_unsigned (p_1_read env))
                        (to_unsigned (p_2_read env) - to_unsigned (p_1_read env))).
Proof.
  intros Hfp Hfh. rewrite main_decomposed. unfold main_loops.
  destruct (for_unsigned_omap life_of
              (degree_body zero fuel env
                 (match OPENMP_max_threads env with Some n => n | None => 1 end)
                 (fst (PetscOptionsGetInt (opt_amr (main_options env)) 0))
                 (h_1_read env) (h_2_read env))
              (fun p => [Born p; Died])
              (to_unsigned (p_2_read env)) (proj2 (to_unsigned_range _))
              fuel (to_unsigned (p_1_read env))
              {| world := no_objects; time := 0%nat; main_trace := [] |}
              (proj1 (to_unsigned_range _))
              (fun i s' _ => degree_body_lives fuel env _ _ _ _ i s' Hfh) Hfp)
    as (s1 & -> & Hs1).
  eexists. split; [reflexivity|].
  assert (omap life_of (prologue env) = []) as Hprologue
      by (unfold prologue; destruct (rank env =? 0); reflexivity).
  assert (omap life_of (face_basis_reported env) = []) as Hreport.
  { unfold face_basis_reported, face_basis_report.
    destruct (opt_face_basis _); [|reflexivity].
    destruct (bool_decide _); [reflexivity|]. destruct (rank env =? 0); reflexivity. }
  unfold lives in *. cbn [record prefixed main_trace].
  rewrite !omap_app, Hs1, Hprologue, Hreport. cbn. rewrite app_nil_r. reflexivity.
Qed.
End MainProperties.

(** ** These properties at sample inputs *)

(** X1 for the line ["  -p_0 1,-p_n  3 "], cut at blanks and commas. *)
Lemma X1_witness :
  exists new,
    Tokenize 17 sample_line [] sample_delimiters = Finished ([] ++ new)%list
    /\ tokens_of sample_delimiters sample_line new
    /\ forall new', tokens_of sample_delimiters sample_line new' -> new' = new.
Proof.
  apply Tokenize_appends_the_tokens; [reflexivity | vm_compute; lia].
Defined.

(** X2 for the same line. *)
Lemma X2_witness :
  exists new,
    Tokenize 17 sample_line [] sample_delimiters = Finished ([] ++ new)%list
    /\ concat new = filter (fun c => c ∉ sample_delimiters) sample_line
    /\ Forall (fun t => t <> [] /\ Forall (fun c => c ∉ sample_delimiters) t) new.
Proof.
  apply Tokenize_keeps_the_other_characters; [reflexivity | vm_compute; lia].
Defined.

(** X3 for the input [" , "]. *)
Lemma X3_witness :
  Tokenize 3 (chars " , ") [chars "-amr"] sample_delimiters = Finished [chars "-amr"]
  <-> Forall (fun c => c ∈ sample_delimiters) (chars " , ").
Proof.
  apply Tokenize_appends_nothing_iff; [reflexivity | vm_compute; lia].
Defined.

(** X4 for the input ["gmres"]. *)
Lemma X4_witness :
  Tokenize 5 (chars "gmres") [] sample_delimiters = Finished ([] ++ [chars "gmres"])%list.
Proof.
  apply Tokenize_without_delimiter;
    [reflexivity | vm_compute; lia | discriminate |].
  refine (bool_decide_unpack _ _). vm_compute. exact I.
Defined.

(** X5 for the tokens ["-p_0"] and ["1"], joined by a blank. *)
Lemma X5_witness :
  Tokenize 6 (join " " [chars "-p_0"; chars "1"]) [] sample_delimiters
  = Finished ([] ++ [chars "-p_0"; chars "1"])%list.
Proof.
  apply Tokenize_join_round_trip; [reflexivity | vm_compute; lia | |].
  - refine (bool_decide_unpack _ _). vm_compute. exact I.
  - repeat constructor; try discriminate.
    all: refine (bool_decide_unpack _ _); vm_compute; exact I.
Defined.

(** X11 on rank 0 of the sample, from the state without objects. *)
Lemma X11_witness :
  live (petsc (snd (call_function
                      (Solve_Linear_Systam 0 (sample_env 0 all_succeed no_options))
                      initial_state)))
  = {[TheSolver; IS_from; IS_to; VecScatter_scatter]}
      ∪ (live (petsc (scalar := Z) initial_state)
           ∖ list_to_set (Vec_x :: global_system)).
Proof.
  apply solver_objects_are_never_destroyed. apply sample_env_ok.
Defined.

(** X12 at [-ksp_type gmres -pc_type hypre]. *)
Lemma X12_witness :
  exists cfg,
    solved_with
      (petsc (snd (call_function
                     (Solve_Linear_Systam 0 (sample_env 0 all_succeed gmres_hypre))
                     initial_state)))
    = Some cfg
    /\ ksp_type cfg = Some "gmres"
    /\ pc_gamg_type cfg = Some PCGAMGAGG.
Proof.
  destruct (solver_type_and_tolerance_follow_the_options
              0 (sample_env 0 all_succeed gmres_hypre) initial_state
              (sample_env_ok 0 gmres_hypre))
    as (cfg & Hcfg & Hty & _ & Hgamg & _).
  exists cfg. split; [exact Hcfg|]. split; [apply Hty; reflexivity | exact Hgamg].
Defined.

(** X13 on rank 0 of the sample. *)
Lemma X13_witness :
  writes_to Execution_Time
            (trace (snd (call_function
                           (Solve_Linear_Systam 0 (sample_env 0 all_succeed no_options))
                           initial_state)))
  = log_of_success (sample_env 0 all_succeed no_options) 0.
Proof.
  exact (proj1 (log_of_a_successful_invocation_on_rank_0
                  0 (sample_env 0 all_succeed no_options) initial_state
                  eq_refl (sample_env_assembly_ok 0 no_options))).
Defined.

(** X14 on rank 0 of the sample, [MatAssemblyBegin] failing. *)
Lemma X14_witness :
  writes_to Execution_Time
            (trace (snd (call_function
                           (Solve_Linear_Systam
                              0 (sample_env 0 MatAssemblyBegin_fails no_options))
                           initial_state)))
  = take 3 (log_of_success (sample_env 0 MatAssemblyBegin_fails no_options) 0).
Proof.
  exact (proj1 (log_of_a_failed_assembly_on_rank_0
                  0 (sample_env 0 MatAssemblyBegin_fails no_options) initial_state
                  eq_refl eq_refl)).
Defined.

(** X15 on rank 1 of the sample, [VecGetArray] failing. *)
Lemma X15_witness :
  exists p',
    call_function (Solve_Linear_Systam 0 (sample_env 1 VecGetArray_fails no_options))
                  initial_state
    = (0, {| petsc := p';
             clock := clock_readings (sample_env 1 VecGetArray_fails no_options) 0 12 6;
             trace := pipeline (sample_env 1 VecGetArray_fails no_options) 0 2 None |}).
Proof.
  refine (failed_VecGetArray_reaches_the_post_solve
            0 (sample_env 1 VecGetArray_fails no_options) initial_state _ _).
  - split; reflexivity.
  - discriminate.
Defined.

(** X18 for [-p_0 3 -p_n 1]. *)
Lemma X18_witness :
  main 0 1 inverted_main_env
  = Some (0, {| world := no_objects; time := 0%nat;
                main_trace := (prologue inverted_main_env
                               ++ face_basis_reported inverted_main_env
                               ++ [SlepcFinalize])%list |}).
Proof.
  apply main_runs_nothing_on_an_empty_range; [discriminate | vm_compute; discriminate].
Defined.

(** X19 on rank 0 of the sample run. *)
Lemma X19_witness :
  exists s loops,
    main 0 5 (sample_main_env 0 None) = Some (0, s)
    /\ main_trace s
       = ([SlepcInitialize;
           Main_cout (help_line ++ endl)%string;
           Truncate_file "Convergence_Result.txt";
           Truncate_file "Execution_Time.txt"]
          ++ loops ++ [SlepcFinalize])%list
    /\ steps loops
       = [Constructed 1; Setup 0; Solve; Visualize; Setup 1; Solve; Visualize;
          Constructed 2; Setup 0; Solve; Visualize; Setup 1; Solve; Visualize]
    /\ main_outputs loops = [].
Proof.
  destruct (main_prints_before_the_loops_only 0 5%nat (sample_main_env 0 None))
    as (s & loops & Hs & Htrace & Hsteps & _ & Hout & _);
    [vm_compute; lia | vm_compute; lia |].
  exists s, loops. split; [exact Hs|]. split; [exact Htrace|].
  split; [exact Hsteps | exact Hout].
Defined.

(** X20 for [-p_0 1 -p_n 3]. *)
Lemma X20_witness :
  exists s,
    main 0 5 (sample_main_env 0 None) = Some (0, s)
    /\ lives (main_trace s) = [Born 1; Died; Born 2; Died].
Proof.
  apply (one_solver_object_at_a_time 0 5%nat (sample_main_env 0 None));
    vm_compute; lia.
Defined.
